(** * The milimg container: writer (encode.py) and reader (decode.py)

    A shallow embedding of the container layer of milimg-utils.

    - [parse_milimg_container] follows decode.py, lines 22-48.
    - [assemble_milimg] follows the [with open(output_path, "wb")] block of
      [encode_milimg], encode.py lines 100-115, as a function of the local
      variables it reads; [encode_milimg] follows lines 69-117 around it.

    A file opened for reading is the list of bytes not yet consumed; a file
    opened for writing is the list of bytes written so far.  Python
    exceptions are values of [exn].  Memory exhaustion and the platform
    limit on the argument of [read] are outside the model. *)

From Stdlib Require Import Strings.String Strings.Byte ZArith List Lia Bool.
From Stdlib Require Import DecimalString.
Import ListNotations.
Local Open Scope Z_scope.

(** ** Bytes and big-endian integers *)

Definition bytes : Type := list byte.

Definition Z_of_byte (b : byte) : Z := Z.of_N (Byte.to_N b).

Definition byte_of_Z (z : Z) : byte :=
  match Byte.of_N (Z.to_N (z mod 256)) with
  | Some b => b
  | None => x00
  end.

(** The [n] low-order bytes of [v], most significant first. *)
Fixpoint be_encode (n : nat) (v : Z) : bytes :=
  match n with
  | O => []
  | S k => byte_of_Z (Z.shiftr v (8 * Z.of_nat k)) :: be_encode k v
  end.

(** The unsigned integer a byte string denotes, most significant byte first. *)
Definition be_decode (buf : bytes) : Z :=
  fold_left (fun acc b => acc * 256 + Z_of_byte b) buf 0.

(** ** Exceptions *)

Inductive exn : Type :=
| ValueError_invalid_magic
    (* ValueError("file format error: invalid magic number") *)
| ValueError_unsupported_version (version : Z)
    (* ValueError(f"unsupported version: {version}") *)
| struct_error
    (* struct.error: wrong buffer size in unpack, value out of range in pack *)
| TypeError.
    (* len(None) *)

Definition result (A : Type) : Type := (exn + A)%type.

(** How the error kinds of the documentation show up in the program.  The
    program has no exception of its own for an invalid record. *)
Definition BadMagic : exn := ValueError_invalid_magic.
Definition UnsupportedVersion (v : Z) : exn := ValueError_unsupported_version v.
Definition Truncated : exn := struct_error.

(** ** The [struct] module, formats ">I", ">Q" and ">IIQ" *)

Definition fits (bits v : Z) : bool := (0 <=? v) && (v <? 2 ^ bits).

Definition struct_pack_I (v : Z) : result bytes :=
  if fits 32 v then inr (be_encode 4 v) else inl struct_error.

Definition struct_pack_Q (v : Z) : result bytes :=
  if fits 64 v then inr (be_encode 8 v) else inl struct_error.

Definition struct_unpack_I (buf : bytes) : result Z :=
  if (length buf =? 4)%nat then inr (be_decode buf) else inl struct_error.

Definition struct_unpack_Q (buf : bytes) : result Z :=
  if (length buf =? 8)%nat then inr (be_decode buf) else inl struct_error.

Definition struct_unpack_IIQ (buf : bytes) : result (Z * Z * Z) :=
  if (length buf =? 16)%nat
  then inr (be_decode (firstn 4 buf),
            be_decode (firstn 4 (skipn 4 buf)),
            be_decode (skipn 8 buf))
  else inl struct_error.

(** [len(x)] for [x : Optional[bytes]]. *)
Definition py_len (x : option bytes) : result Z :=
  match x with
  | Some b => inr (Z.of_nat (length b))
  | None => inl TypeError
  end.

(** ** File operations: a state and exception monad over the file *)

Definition io (A : Type) : Type := bytes -> result A * bytes.

Definition ret {A} (a : A) : io A := fun f => (inr a, f).

Definition raise {A} (e : exn) : io A := fun f => (inl e, f).

Definition bind {A B} (m : io A) (k : A -> io B) : io B :=
  fun f =>
    match m f with
    | (inr a, f') => k a f'
    | (inl e, f') => (inl e, f')
    end.

Definition lift {A} (r : result A) : io A := fun f => (r, f).

Declare Scope io_scope.
Delimit Scope io_scope with io.
Notation "x <- m ;; k" := (bind m (fun x => k))
  (at level 61, m at next level, right associativity) : io_scope.
Notation "m ;; k" := (bind m (fun _ => k))
  (at level 61, right associativity) : io_scope.
Notation "' pat <- m ;; k" := (bind m (fun x => match x with pat => k end))
  (at level 61, pat pattern, m at next level, right associativity) : io_scope.
Local Open Scope io_scope.

(** [f.read(n)]: up to [n] bytes, fewer at the end of the file, never an
    error.  This is [read] for the sizes a file can hold; what the
    interpreter does with a size beyond them is not modelled. *)
Definition fread (n : Z) : io bytes :=
  fun f => (inr (firstn (Z.to_nat n) f), skipn (Z.to_nat n) f).

(** [f.write(data)] *)
Definition fwrite (data : bytes) : io unit :=
  fun f => (inr tt, f ++ data).

(** ** decode.py *)

Record MilimgHeader : Type := mkMilimgHeader {
  version : Z;
  width : Z;
  height : Z;
  color_payload : bytes;
  alpha_payload : option bytes
}.

(** b"Milimg00" *)
Definition magic : bytes := [x4d; x69; x6c; x69; x6d; x67; x30; x30].

Definition bytes_eqb (a b : bytes) : bool :=
  if list_eq_dec Byte.byte_eq_dec a b then true else false.

Definition parse_milimg_container_io : io MilimgHeader :=
  m <- fread 8 ;;
  (if negb (bytes_eqb m magic) then raise ValueError_invalid_magic else ret tt) ;;
  vb <- fread 4 ;;
  version <- lift (struct_unpack_I vb) ;;
  (if negb ((version =? 0) || (version =? 1))
   then raise (ValueError_unsupported_version version) else ret tt) ;;
  hb <- fread 16 ;;
  '(width, height, color_payload_size) <- lift (struct_unpack_IIQ hb) ;;
  color_payload <- fread color_payload_size ;;
  alpha_payload <-
    (if version =? 1
     then ab <- fread 8 ;;
          alpha_payload_size <- lift (struct_unpack_Q ab) ;;
          a <- fread alpha_payload_size ;;
          ret (Some a)
     else ret None) ;;
  ret (mkMilimgHeader version width height color_payload alpha_payload).

(** The reader applied to the content of the file at [file_path]. *)
Definition parse_milimg_container (file : bytes) : result MilimgHeader :=
  fst (parse_milimg_container_io file).

(** ** encode.py *)

(** The [with open(output_path, "wb") as f] block of [encode_milimg], over
    the local variables it reads. *)
Definition assemble_milimg (version width height : Z)
    (color_payload : bytes) (alpha_payload : option bytes) : io unit :=
  fwrite magic ;;
  vb <- lift (struct_pack_I version) ;;
  fwrite vb ;;
  wb <- lift (struct_pack_I width) ;;
  fwrite wb ;;
  hb <- lift (struct_pack_I height) ;;
  fwrite hb ;;
  cb <- lift (struct_pack_Q (Z.of_nat (length color_payload))) ;;
  fwrite cb ;;
  fwrite color_payload ;;
  if version =? 1
  then n <- lift (py_len alpha_payload) ;;
       ab <- lift (struct_pack_Q n) ;;
       fwrite ab ;;
       match alpha_payload with
       | Some a => fwrite a
       | None => raise TypeError
       end
  else ret tt.

Section Encoder.

(** The image library and the AV1 encoder are collaborators, taken as
    functions that return: a failure inside them comes before the write
    block and is not modelled. *)
Variable Image : Type.
Variable img_mode : Image -> string.
Variable info_contains : Image -> string -> bool.
Variable getchannel : Image -> string -> Image.
Variable getdata : Image -> list Z.
Variable convert : Image -> string -> Image.
Variable size : Image -> Z * Z.
Variable encode_to_av1 : Image -> Z -> bool -> bytes.

Definition has_transparency (img : Image) : bool :=
  if String.eqb (img_mode img) "P"
  then (if info_contains img "transparency" then true else false)
  else if String.eqb (img_mode img) "RGBA"
  then existsb (fun p => p <? 255) (getdata (getchannel img "A"))
  else false.

(** [opened] is [Image.open(input_path)]. *)
Definition encode_milimg (opened : Image) (quality : Z) : io unit :=
  let img := convert opened "RGBA" in
  let '(width, height) := size img in
  let use_alpha := has_transparency img in
  let version := if use_alpha then 1 else 0 in
  let rgb_image := convert img "RGB" in
  let color_payload := encode_to_av1 rgb_image quality false in
  let alpha_payload :=
    if version =? 1
    then Some (encode_to_av1 (getchannel img "A") quality true)
    else None in
  assemble_milimg version width height color_payload alpha_payload.

End Encoder.

(** ** The operations the documentation names *)

(** A run of a writer on a freshly created file: the content of the file
    when no exception was raised. *)
Definition written (m : io unit) : result bytes :=
  match m [] with
  | (inr _, out) => inr out
  | (inl e, _) => inl e
  end.

Definition serialize (r : MilimgHeader) : result bytes :=
  written (assemble_milimg (version r) (width r) (height r)
                           (color_payload r) (alpha_payload r)).

Definition parse : bytes -> result MilimgHeader := parse_milimg_container.

(** Version and alpha payload go together. *)
Definition coupled (r : MilimgHeader) : Prop :=
  (version r = 0 /\ alpha_payload r = None) \/
  (version r = 1 /\ exists a, alpha_payload r = Some a).

Definition len (b : bytes) : Z := Z.of_nat (length b).

(** A record of the data model: coupled, 32-bit dimensions, payload lengths
    that fit in 64 bits. *)
Definition valid_record (r : MilimgHeader) : Prop :=
  coupled r /\
  0 <= width r < 2 ^ 32 /\
  0 <= height r < 2 ^ 32 /\
  len (color_payload r) < 2 ^ 64 /\
  (forall a, alpha_payload r = Some a -> len a < 2 ^ 64).

(** The byte layout of the interface table, as a function of the fields. *)
Definition layout (r : MilimgHeader) : bytes :=
  magic ++ be_encode 4 (version r) ++ be_encode 4 (width r)
        ++ be_encode 4 (height r)
        ++ be_encode 8 (len (color_payload r)) ++ color_payload r
        ++ match alpha_payload r with
           | Some a => if version r =? 1 then be_encode 8 (len a) ++ a else []
           | None => []
           end.

(** A stream is well formed when it is the serialization of a valid record:
    every declared length is the number of bytes that follow it. *)
Definition well_formed (s : bytes) : Prop :=
  exists r, valid_record r /\ serialize r = inr s.

Definition scenario_A : MilimgHeader :=
  mkMilimgHeader 0 4 2 [x41; x42] None.

(** ** encode.py, the AV1 side *)

(** [str(n)] for an int. *)
Definition py_str (n : Z) : string := NilZero.string_of_int (Z.to_int n).

(** The stream the encoder configures before it encodes: what
    [container.add_stream] is given and what is assigned to the stream, the
    options in the order of their assignment. *)
Record StreamConfig : Type := mkStreamConfig {
  codec_name : string;
  rate : Z;
  stream_width : Z;
  stream_height : Z;
  pix_fmt : string;
  options : list (string * string)
}.

Section Av1Encoder.

(** PyAV is a collaborator: [av_encode cfg image] is
    [output_buffer.getvalue()] once the frame made from [image] has been
    encoded on a stream configured as [cfg], muxed as IVF and flushed. *)
Variable Image : Type.
Variable image_width : Image -> Z.
Variable image_height : Image -> Z.
Variable av_encode : StreamConfig -> Image -> bytes.

Definition encode_to_av1 (image : Image) (quality : Z) (is_alpha : bool)
    : bytes :=
  let pix := if is_alpha then "gray8"%string else "yuv420p"%string in
  let opts :=
    if is_alpha then []
    else [("colorspace", "bt709"); ("color_range", "pc")]%string in
  let opts := opts ++ [("crf"%string, py_str quality)] in
  let stream :=
    mkStreamConfig "libaom-av1" 30 (image_width image) (image_height image)
                   pix opts in
  let ivf_data := av_encode stream image in
  skipn 44 ivf_data.

End Av1Encoder.

(** ** decode.py, the codec side *)

(** The temporary files, by name. *)
Definition tmpfs : Type := list (string * bytes).

Fixpoint fs_lookup (name : string) (fs : tmpfs) : option bytes :=
  match fs with
  | [] => None
  | (n, content) :: rest =>
      if String.eqb n name then Some content else fs_lookup name rest
  end.

(** [os.remove(name)] *)
Definition fs_remove (name : string) (fs : tmpfs) : tmpfs :=
  filter (fun entry => negb (String.eqb (fst entry) name)) fs.

(** Truth value of an [Optional[bytes]]: [None] and [b""] are false. *)
Definition truthy (x : option bytes) : bool :=
  match x with
  | Some (_ :: _) => true
  | _ => false
  end.

Section Decoder.

(** OpenCV, NumPy, Pillow and [tempfile] are collaborators.
    [mktemp fs] is the name [NamedTemporaryFile] picks; [cap_isOpened] and
    [cap_read] are [cap.isOpened()] and [cap.read()] of the capture opened
    on a file, as functions of what the file holds.  What is printed is not
    modelled, nor are exceptions raised inside the libraries other than the
    two the source raises itself. *)
Variable Frame : Type.
Variable Image : Type.
Variable mktemp : tmpfs -> string.
Variable cap_isOpened : option bytes -> bool.
Variable cap_read : option bytes -> bool * Frame.
Variable cvtColor_BGR2RGB : Frame -> Frame.
Variable fromarray : Frame -> Image.
Variable channel_0 : Frame -> Frame.
Variable fromarray_L : Frame -> Image.
Variable convert : Image -> string -> Image.
Variable putalpha : Image -> Image -> Image.

Definition decode_av1_frame_with_opencv (payload : bytes) (fs : tmpfs)
    : option Frame * tmpfs :=
  match payload with
  | [] => (None, fs)
  | _ :: _ =>
      let temp_filename := mktemp fs in
      let fs := (temp_filename, payload) :: fs in
      let frame :=
        if negb (cap_isOpened (fs_lookup temp_filename fs))
        then None (* IOError, caught *)
        else
          let '(ret, frame) := cap_read (fs_lookup temp_filename fs) in
          if negb ret
          then None (* ValueError, caught *)
          else Some frame in
      (frame, fs_remove temp_filename fs)
  end.

(** [file] is the content of the file at [file_path]. *)
Definition decode_milimg (file : bytes) (fs : tmpfs)
    : result (option Image) * tmpfs :=
  match parse_milimg_container file with
  | inl e => (inl e, fs)
  | inr header =>
      let '(color_frame_bgr, fs) :=
        decode_av1_frame_with_opencv (color_payload header) fs in
      match color_frame_bgr with
      | None => (inr None, fs)
      | Some color_frame_bgr =>
          let color_frame_rgb := cvtColor_BGR2RGB color_frame_bgr in
          let rgb_image := fromarray color_frame_rgb in
          match alpha_payload header with
          | Some alpha =>
               if (version header =? 1) && truthy (Some alpha)
               then
                 let '(alpha_frame_bgr, fs) :=
                   decode_av1_frame_with_opencv alpha fs in
                 match alpha_frame_bgr with
                 | Some alpha_frame_bgr =>
                     let alpha_channel_np := channel_0 alpha_frame_bgr in
                     let alpha_image := fromarray_L alpha_channel_np in
                     let rgba_image := convert rgb_image "RGBA" in
                     (inr (Some (putalpha rgba_image alpha_image)), fs)
                 | None => (inr (Some (convert rgb_image "RGBA")), fs)
                 end
               else (inr (Some (convert rgb_image "RGBA")), fs)
          | None => (inr (Some (convert rgb_image "RGBA")), fs)
          end
      end
  end.

End Decoder.

(** ** Byte offsets *)

(** [f[i:j]] *)
Definition slice (i j : nat) (f : bytes) : bytes := firstn (j - i) (skipn i f).

(** The fields of a stream by their offsets: the declared version and
    payload lengths. *)
Definition version_field (f : bytes) : Z := be_decode (slice 8 12 f).

Definition color_size_field (f : bytes) : nat :=
  Z.to_nat (be_decode (slice 20 28 f)).

Definition alpha_size_field (f : bytes) : nat :=
  Z.to_nat (be_decode (slice (28 + color_size_field f)
                             (36 + color_size_field f) f)).

(** A version-1 stream: 5 bytes of color payload, 3 of alpha payload. *)
Definition stream_v1 : bytes :=
  layout (mkMilimgHeader 1 3 1 [x01; x02; x03; x04; x05]
                         (Some [x0a; x0b; x0c])).

(** * Properties *)

(** ** Bytes and big-endian integers *)

Lemma Z_of_byte_range (b : byte) : 0 <= Z_of_byte b < 256.
Proof.
  unfold Z_of_byte. pose proof (Byte.to_N_bounded b) as Hb.
  split; [apply N2Z.is_nonneg | lia].
Qed.

Lemma Z_of_byte_of_Z (z : Z) : Z_of_byte (byte_of_Z z) = z mod 256.
Proof.
  unfold Z_of_byte, byte_of_Z.
  assert (Hr : 0 <= z mod 256 < 256) by (apply Z.mod_pos_bound; lia).
  destruct (Byte.of_N (Z.to_N (z mod 256))) as [b|] eqn:E.
  - apply Byte.to_of_N in E. rewrite E. lia.
  - apply Byte.of_N_None_iff in E. lia.
Qed.

Lemma be_encode_length (n : nat) (v : Z) : length (be_encode n v) = n.
Proof. induction n as [|k IH]; simpl; congruence. Qed.

Lemma be_decode_acc (buf : bytes) (acc : Z) :
  fold_left (fun a b => a * 256 + Z_of_byte b) buf acc
  = acc * 2 ^ (8 * Z.of_nat (length buf)) + be_decode buf.
Proof.
  unfold be_decode. revert acc.
  induction buf as [|b buf IH] using rev_ind; intros acc.
  - simpl. lia.
  - rewrite !fold_left_app. cbn [fold_left]. rewrite IH.
    rewrite length_app. cbn [length].
    replace (8 * Z.of_nat (length buf + 1)) with (8 * Z.of_nat (length buf) + 8) by lia.
    rewrite Z.pow_add_r by lia. change (2 ^ 8) with 256. lia.
Qed.

Lemma be_decode_cons (b : byte) (buf : bytes) :
  be_decode (b :: buf) = Z_of_byte b * 2 ^ (8 * Z.of_nat (length buf)) + be_decode buf.
Proof. unfold be_decode at 1. cbn [fold_left]. rewrite be_decode_acc. lia. Qed.

(** Decoding undoes encoding, up to the width of the field. *)
Lemma be_decode_encode (n : nat) (v : Z) :
  be_decode (be_encode n v) = v mod 2 ^ (8 * Z.of_nat n).
Proof.
  induction n as [|k IH].
  - cbn. rewrite Z.mod_1_r. reflexivity.
  - cbn [be_encode]. rewrite be_decode_cons, be_encode_length, IH, Z_of_byte_of_Z.
    rewrite Z.shiftr_div_pow2 by lia.
    replace (8 * Z.of_nat (S k)) with (8 * Z.of_nat k + 8) by lia.
    rewrite Z.pow_add_r by lia. change (2 ^ 8) with 256.
    set (B := 2 ^ (8 * Z.of_nat k)).
    assert (HB : 0 < B) by (apply Z.pow_pos_nonneg; lia).
    rewrite (Z.rem_mul_r v B 256) by lia. lia.
Qed.

Lemma be_decode_encode_fits (n : nat) (v : Z) :
  0 <= v < 2 ^ (8 * Z.of_nat n) -> be_decode (be_encode n v) = v.
Proof. intros H. rewrite be_decode_encode. apply Z.mod_small, H. Qed.

(** Byte [i] of a big-endian field is digit [n - 1 - i] of the value in
    base 256. *)
Lemma be_encode_nth (n i : nat) (v : Z) :
  (i < n)%nat ->
  Z_of_byte (nth i (be_encode n v) x00) = (v / 256 ^ Z.of_nat (n - 1 - i)) mod 256.
Proof.
  revert i. induction n as [|k IH]; intros i Hi; [lia|].
  destruct i as [|j]; cbn [be_encode nth].
  - rewrite Z_of_byte_of_Z, Z.shiftr_div_pow2 by lia.
    replace (S k - 1 - 0)%nat with k by lia.
    replace (2 ^ (8 * Z.of_nat k)) with (256 ^ Z.of_nat k); [reflexivity|].
    change 256 with (2 ^ 8). rewrite <- Z.pow_mul_r by lia. reflexivity.
  - rewrite IH by lia. replace (S k - 1 - S j)%nat with (k - 1 - j)%nat by lia.
    reflexivity.
Qed.

(** ** Running the file monad *)

Lemma firstn_exact {A} (a b : list A) : firstn (length a) (a ++ b) = a.
Proof.
  rewrite firstn_app, Nat.sub_diag, firstn_all. cbn [firstn].
  apply app_nil_r.
Qed.

Lemma skipn_exact {A} (a b : list A) : skipn (length a) (a ++ b) = b.
Proof.
  rewrite skipn_app, Nat.sub_diag, skipn_all. reflexivity.
Qed.

Lemma firstn_exact_n {A} (n : nat) (a b : list A) :
  length a = n -> firstn n (a ++ b) = a.
Proof. intros <-. apply firstn_exact. Qed.

Lemma skipn_exact_n {A} (n : nat) (a b : list A) :
  length a = n -> skipn n (a ++ b) = b.
Proof. intros <-. apply skipn_exact. Qed.

Lemma fread_app (n : Z) (a rest : bytes) :
  Z.to_nat n = length a -> fread n (a ++ rest) = (inr a, rest).
Proof.
  intros H. unfold fread. rewrite H, firstn_exact, skipn_exact. reflexivity.
Qed.

Lemma fread_short (n : Z) (p : bytes) :
  (length p <= Z.to_nat n)%nat -> fread n p = (inr p, []).
Proof.
  intros H. unfold fread. rewrite firstn_all2, skipn_all2 by exact H.
  reflexivity.
Qed.

Lemma bind_fread_app {B} (n : Z) (a rest : bytes) (k : bytes -> io B) :
  Z.to_nat n = length a -> bind (fread n) k (a ++ rest) = k a rest.
Proof. intros H. unfold bind. rewrite fread_app by exact H. reflexivity. Qed.

Lemma bind_fread_short {B} (n : Z) (p : bytes) (k : bytes -> io B) :
  (length p <= Z.to_nat n)%nat -> bind (fread n) k p = k p [].
Proof. intros H. unfold bind. rewrite fread_short by exact H. reflexivity. Qed.

Lemma bind_lift {A B} (r : result A) (k : A -> io B) (f : bytes) :
  bind (lift r) k f = match r with inr x => k x f | inl e => (inl e, f) end.
Proof. destruct r; reflexivity. Qed.

Lemma bind_ret {A B} (a : A) (k : A -> io B) (f : bytes) :
  bind (ret a) k f = k a f.
Proof. reflexivity. Qed.

Lemma bind_raise {A B} (e : exn) (k : A -> io B) (f : bytes) :
  bind (raise e) k f = (inl e, f).
Proof. reflexivity. Qed.

Lemma bind_fwrite {B} (data : bytes) (k : unit -> io B) (f : bytes) :
  bind (fwrite data) k f = k tt (f ++ data).
Proof. reflexivity. Qed.

Lemma bytes_eqb_eq (a b : bytes) : bytes_eqb a b = true <-> a = b.
Proof.
  unfold bytes_eqb. destruct (list_eq_dec byte_eq_dec a b); split;
    congruence.
Qed.

Lemma bytes_eqb_refl (a : bytes) : bytes_eqb a a = true.
Proof. apply bytes_eqb_eq. reflexivity. Qed.

Lemma struct_unpack_I_short (buf : bytes) :
  length buf <> 4%nat -> struct_unpack_I buf = inl struct_error.
Proof.
  intros H. unfold struct_unpack_I.
  destruct (Nat.eqb_spec (length buf) 4); [contradiction | reflexivity].
Qed.

Lemma struct_unpack_I_exact (buf : bytes) :
  length buf = 4%nat -> struct_unpack_I buf = inr (be_decode buf).
Proof. intros H. unfold struct_unpack_I. rewrite H. reflexivity. Qed.

Lemma struct_unpack_Q_short (buf : bytes) :
  length buf <> 8%nat -> struct_unpack_Q buf = inl struct_error.
Proof.
  intros H. unfold struct_unpack_Q.
  destruct (Nat.eqb_spec (length buf) 8); [contradiction | reflexivity].
Qed.

Lemma struct_unpack_Q_exact (buf : bytes) :
  length buf = 8%nat -> struct_unpack_Q buf = inr (be_decode buf).
Proof. intros H. unfold struct_unpack_Q. rewrite H. reflexivity. Qed.

Lemma struct_unpack_IIQ_short (buf : bytes) :
  length buf <> 16%nat -> struct_unpack_IIQ buf = inl struct_error.
Proof.
  intros H. unfold struct_unpack_IIQ.
  destruct (Nat.eqb_spec (length buf) 16); [contradiction | reflexivity].
Qed.

Lemma struct_unpack_IIQ_fields (wb hb nb : bytes) :
  length wb = 4%nat -> length hb = 4%nat -> length nb = 8%nat ->
  struct_unpack_IIQ (wb ++ hb ++ nb)
  = inr (be_decode wb, be_decode hb, be_decode nb).
Proof.
  intros Hw Hh Hn. unfold struct_unpack_IIQ.
  rewrite !length_app, Hw, Hh, Hn. cbn [Nat.add Nat.eqb].
  rewrite (firstn_exact_n 4 wb), (skipn_exact_n 4 wb) by exact Hw.
  rewrite (firstn_exact_n 4 hb) by exact Hh.
  rewrite app_assoc, (skipn_exact_n 8 (wb ++ hb))
    by (rewrite length_app; lia).
  reflexivity.
Qed.

Lemma bind_fread {B} (n : Z) (k : bytes -> io B) (f : bytes) :
  bind (fread n) k f = k (firstn (Z.to_nat n) f) (skipn (Z.to_nat n) f).
Proof. reflexivity. Qed.

Lemma bind_bind {A B C} (m : io A) (k : A -> io B) (k' : B -> io C) (f : bytes) :
  bind (bind m k) k' f = bind m (fun x => bind (k x) k') f.
Proof. unfold bind. destruct (m f) as [[e|a] f']; reflexivity. Qed.

(** ** The reader, state by state *)

Ltac start_parse :=
  unfold parse, parse_milimg_container, parse_milimg_container_io.

Ltac pass_magic :=
  start_parse;
  rewrite (bind_fread_app 8 magic) by reflexivity;
  rewrite bytes_eqb_refl; cbn [negb]; rewrite bind_ret.

Ltac pass_version vb Hlen :=
  pass_magic;
  rewrite (bind_fread_app 4 vb) by (rewrite Hlen; reflexivity);
  rewrite bind_lift, (struct_unpack_I_exact vb Hlen).

Lemma parse_invalid_magic (f : bytes) :
  firstn 8 f <> magic ->
  parse_milimg_container f = inl ValueError_invalid_magic.
Proof.
  intros H. start_parse. rewrite bind_fread. change (Z.to_nat 8) with 8%nat.
  destruct (bytes_eqb (firstn 8 f) magic) eqn:E.
  - apply bytes_eqb_eq in E. contradiction.
  - cbn [negb]. rewrite bind_raise. reflexivity.
Qed.

Lemma parse_short_version (vb : bytes) :
  (length vb < 4)%nat ->
  parse_milimg_container (magic ++ vb) = inl struct_error.
Proof.
  intros H. pass_magic.
  rewrite bind_fread_short by (change (Z.to_nat 4) with 4%nat; lia).
  rewrite bind_lift, struct_unpack_I_short by lia. reflexivity.
Qed.

Lemma parse_unsupported_version (vb rest : bytes) :
  length vb = 4%nat -> be_decode vb <> 0 -> be_decode vb <> 1 ->
  parse_milimg_container (magic ++ vb ++ rest)
  = inl (ValueError_unsupported_version (be_decode vb)).
Proof.
  intros Hlen H0 H1. pass_version vb Hlen.
  destruct (Z.eqb_spec (be_decode vb) 0); [contradiction|].
  destruct (Z.eqb_spec (be_decode vb) 1); [contradiction|].
  cbn [orb negb]. rewrite bind_raise. reflexivity.
Qed.

Lemma supported_version_test (v : Z) :
  v = 0 \/ v = 1 -> negb ((v =? 0) || (v =? 1)) = false.
Proof. intros [-> | ->]; reflexivity. Qed.

Lemma parse_short_header (vb hb : bytes) :
  length vb = 4%nat -> be_decode vb = 0 \/ be_decode vb = 1 ->
  (length hb < 16)%nat ->
  parse_milimg_container (magic ++ vb ++ hb) = inl struct_error.
Proof.
  intros Hlen Hv Hh. pass_version vb Hlen.
  rewrite (supported_version_test _ Hv), bind_ret.
  rewrite bind_fread_short by (change (Z.to_nat 16) with 16%nat; lia).
  rewrite bind_lift, struct_unpack_IIQ_short by lia. reflexivity.
Qed.

Ltac pass_header vb wb hb nb body Hlen Hv Hw Hh Hn :=
  pass_version vb Hlen;
  rewrite (supported_version_test _ Hv), bind_ret;
  replace (wb ++ hb ++ nb ++ body) with ((wb ++ hb ++ nb) ++ body)
    by (rewrite <- !app_assoc; reflexivity);
  rewrite (bind_fread_app 16 (wb ++ hb ++ nb))
    by (rewrite !length_app, Hw, Hh, Hn; reflexivity);
  rewrite bind_lift, (struct_unpack_IIQ_fields wb hb nb Hw Hh Hn);
  cbv beta iota; rewrite bind_fread.

Lemma parse_version_0 (vb wb hb nb body : bytes) :
  length vb = 4%nat -> be_decode vb = 0 ->
  length wb = 4%nat -> length hb = 4%nat -> length nb = 8%nat ->
  parse_milimg_container (magic ++ vb ++ wb ++ hb ++ nb ++ body)
  = inr (mkMilimgHeader 0 (be_decode wb) (be_decode hb)
           (firstn (Z.to_nat (be_decode nb)) body) None).
Proof.
  intros Hlen Hv Hw Hh Hn.
  pass_header vb wb hb nb body Hlen (or_introl (be_decode vb = 1) Hv) Hw Hh Hn.
  rewrite Hv. reflexivity.
Qed.

Lemma parse_version_1_short (vb wb hb nb body : bytes) :
  length vb = 4%nat -> be_decode vb = 1 ->
  length wb = 4%nat -> length hb = 4%nat -> length nb = 8%nat ->
  (length (skipn (Z.to_nat (be_decode nb)) body) < 8)%nat ->
  parse_milimg_container (magic ++ vb ++ wb ++ hb ++ nb ++ body)
  = inl struct_error.
Proof.
  intros Hlen Hv Hw Hh Hn Hshort.
  pass_header vb wb hb nb body Hlen (or_intror (be_decode vb = 0) Hv) Hw Hh Hn.
  rewrite Hv. cbn [Z.eqb Pos.eqb]. rewrite bind_bind.
  rewrite bind_fread_short by (change (Z.to_nat 8) with 8%nat; lia).
  cbv beta. rewrite bind_bind, bind_lift, struct_unpack_Q_short by lia.
  reflexivity.
Qed.

Lemma parse_version_1 (vb wb hb nb body ab rest : bytes) :
  length vb = 4%nat -> be_decode vb = 1 ->
  length wb = 4%nat -> length hb = 4%nat -> length nb = 8%nat ->
  skipn (Z.to_nat (be_decode nb)) body = ab ++ rest -> length ab = 8%nat ->
  parse_milimg_container (magic ++ vb ++ wb ++ hb ++ nb ++ body)
  = inr (mkMilimgHeader 1 (be_decode wb) (be_decode hb)
           (firstn (Z.to_nat (be_decode nb)) body)
           (Some (firstn (Z.to_nat (be_decode ab)) rest))).
Proof.
  intros Hlen Hv Hw Hh Hn Hbody Ha.
  pass_header vb wb hb nb body Hlen (or_intror (be_decode vb = 0) Hv) Hw Hh Hn.
  rewrite Hv, Hbody. cbn [Z.eqb Pos.eqb]. rewrite bind_bind.
  rewrite (bind_fread_app 8 ab) by (rewrite Ha; reflexivity).
  cbv beta. rewrite bind_bind, bind_lift, (struct_unpack_Q_exact ab Ha).
  reflexivity.
Qed.

(** ** The writer *)

Lemma fits_true (bits v : Z) : 0 <= v < 2 ^ bits -> fits bits v = true.
Proof.
  intros H. unfold fits. apply andb_true_intro.
  split; [apply Z.leb_le | apply Z.ltb_lt]; lia.
Qed.

Lemma fits_range (bits v : Z) : fits bits v = true -> 0 <= v < 2 ^ bits.
Proof.
  unfold fits. intros H. apply andb_prop in H. destruct H as [H1 H2].
  apply Z.leb_le in H1. apply Z.ltb_lt in H2. lia.
Qed.

Lemma len_nonneg (b : bytes) : 0 <= len b.
Proof. unfold len. lia. Qed.

(** Any version other than 1: the header and the color payload, and the
    alpha payload is not looked at. *)
Lemma assemble_no_alpha (v w h : Z) (c : bytes) (a : option bytes) (f0 : bytes) :
  0 <= v < 2 ^ 32 -> v <> 1 -> 0 <= w < 2 ^ 32 -> 0 <= h < 2 ^ 32 ->
  len c < 2 ^ 64 ->
  assemble_milimg v w h c a f0
  = (inr tt, f0 ++ magic ++ be_encode 4 v ++ be_encode 4 w ++ be_encode 4 h
                 ++ be_encode 8 (len c) ++ c).
Proof.
  intros Hv Hv1 Hw Hh Hc. pose proof (len_nonneg c) as Hc0.
  unfold assemble_milimg, struct_pack_I, struct_pack_Q. fold (len c).
  rewrite !fits_true by lia.
  destruct (Z.eqb_spec v 1) as [E|_]; [contradiction|].
  unfold bind, lift, fwrite, ret. rewrite <- !app_assoc. reflexivity.
Qed.

Lemma assemble_with_alpha (w h : Z) (c a : bytes) (f0 : bytes) :
  0 <= w < 2 ^ 32 -> 0 <= h < 2 ^ 32 -> len c < 2 ^ 64 -> len a < 2 ^ 64 ->
  assemble_milimg 1 w h c (Some a) f0
  = (inr tt, f0 ++ magic ++ be_encode 4 1 ++ be_encode 4 w ++ be_encode 4 h
                 ++ be_encode 8 (len c) ++ c ++ be_encode 8 (len a) ++ a).
Proof.
  intros Hw Hh Hc Ha.
  pose proof (len_nonneg c) as Hc0. pose proof (len_nonneg a) as Ha0.
  unfold assemble_milimg, struct_pack_I, struct_pack_Q, py_len.
  fold (len c). fold (len a).
  rewrite (fits_true 32 1), (fits_true 32 w), (fits_true 32 h),
    (fits_true 64 (len c)) by lia.
  unfold bind, lift, fwrite, ret. cbn [Z.eqb Pos.eqb].
  fold (len a). rewrite (fits_true 64 (len a)) by lia.
  rewrite <- !app_assoc. reflexivity.
Qed.

Lemma serialize_layout (r : MilimgHeader) :
  valid_record r -> serialize r = inr (layout r).
Proof.
  destruct r as [v w h c a]. unfold valid_record, coupled, serialize, written, layout.
  cbn [version width height color_payload alpha_payload].
  intros [[[-> ->] | [-> [a' ->]]] (Hw & Hh & Hc & Ha)].
  - rewrite assemble_no_alpha by lia. rewrite app_nil_r. reflexivity.
  - rewrite assemble_with_alpha by (auto; lia). reflexivity.
Qed.

(** ** The reader on a written header *)

Lemma to_nat_len (b : bytes) : Z.to_nat (len b) = length b.
Proof. unfold len. apply Nat2Z.id. Qed.

Lemma decode_field_4 (v : Z) : 0 <= v < 2 ^ 32 -> be_decode (be_encode 4 v) = v.
Proof. intros H. apply be_decode_encode_fits. exact H. Qed.

Lemma decode_field_8 (v : Z) : 0 <= v < 2 ^ 64 -> be_decode (be_encode 8 v) = v.
Proof. intros H. apply be_decode_encode_fits. exact H. Qed.

Lemma decode_len_8 (b : bytes) :
  len b < 2 ^ 64 -> Z.to_nat (be_decode (be_encode 8 (len b))) = length b.
Proof.
  intros H. rewrite decode_field_8 by (pose proof (len_nonneg b); lia).
  apply to_nat_len.
Qed.

Section WrittenHeader.

Variables (w h : Z) (c : bytes).
Hypothesis Hw : 0 <= w < 2 ^ 32.
Hypothesis Hh : 0 <= h < 2 ^ 32.
Hypothesis Hc : len c < 2 ^ 64.

Lemma parse_header_0 (body : bytes) :
  parse_milimg_container
    (magic ++ be_encode 4 0 ++ be_encode 4 w ++ be_encode 4 h
           ++ be_encode 8 (len c) ++ body)
  = inr (mkMilimgHeader 0 w h (firstn (length c) body) None).
Proof.
  rewrite parse_version_0
    by (rewrite ?be_encode_length, ?decode_field_4; reflexivity || lia).
  rewrite !decode_field_4, decode_len_8 by assumption. reflexivity.
Qed.

Lemma parse_header_1_short (body : bytes) :
  (length (skipn (length c) body) < 8)%nat ->
  parse_milimg_container
    (magic ++ be_encode 4 1 ++ be_encode 4 w ++ be_encode 4 h
           ++ be_encode 8 (len c) ++ body)
  = inl struct_error.
Proof.
  intros Hshort.
  apply parse_version_1_short;
    rewrite ?be_encode_length, ?decode_field_4, ?decode_len_8;
    solve [reflexivity | lia | assumption].
Qed.

Lemma parse_header_1 (body a rest : bytes) :
  len a < 2 ^ 64 ->
  skipn (length c) body = be_encode 8 (len a) ++ rest ->
  parse_milimg_container
    (magic ++ be_encode 4 1 ++ be_encode 4 w ++ be_encode 4 h
           ++ be_encode 8 (len c) ++ body)
  = inr (mkMilimgHeader 1 w h (firstn (length c) body)
           (Some (firstn (length a) rest))).
Proof.
  intros Ha Hbody.
  rewrite (parse_version_1 _ _ _ _ body (be_encode 8 (len a)) rest);
    rewrite ?be_encode_length, ?decode_field_4, ?decode_len_8;
    solve [reflexivity | lia | assumption].
Qed.

End WrittenHeader.

(** ** Reading what was written *)

Lemma len_app (a b : bytes) : len (a ++ b) = len a + len b.
Proof. unfold len. rewrite length_app. lia. Qed.

Lemma len_be_encode (n : nat) (v : Z) : len (be_encode n v) = Z.of_nat n.
Proof. unfold len. rewrite be_encode_length. reflexivity. Qed.

Lemma len_magic : len magic = 8.
Proof. reflexivity. Qed.

(** The reader stops after the last declared payload: bytes after it are
    never looked at. *)
Lemma parse_layout_app (r : MilimgHeader) (t : bytes) :
  valid_record r -> parse_milimg_container (layout r ++ t) = inr r.
Proof.
  destruct r as [v w h c a]. unfold valid_record, coupled, layout.
  cbn [version width height color_payload alpha_payload].
  intros [[[-> ->] | [-> [a' ->]]] (Hw & Hh & Hc & Ha)].
  - rewrite <- !app_assoc. rewrite parse_header_0 by assumption.
    rewrite firstn_exact. reflexivity.
  - specialize (Ha a' eq_refl). cbn [Z.eqb Pos.eqb]. rewrite <- !app_assoc.
    rewrite (parse_header_1 w h c Hw Hh Hc _ a' (a' ++ t) Ha)
      by apply skipn_exact.
    rewrite !firstn_exact. reflexivity.
Qed.

Lemma layout_length (r : MilimgHeader) :
  len (layout r)
  = 28 + len (color_payload r)
    + match alpha_payload r with
      | Some a => if version r =? 1 then 8 + len a else 0
      | None => 0
      end.
Proof.
  unfold layout. rewrite !len_app, !len_be_encode, len_magic.
  destruct (alpha_payload r) as [a|]; [destruct (version r =? 1)|];
    rewrite ?len_app, ?len_be_encode; change (len []) with 0; lia.
Qed.

(** C1. Round trip: serializing a valid record succeeds, and parsing the
    bytes gives back the same record, with the same version, width, height,
    color payload and alpha payload (or none). *)
Theorem parse_serialize_roundtrip (r : MilimgHeader) :
  valid_record r ->
  exists s, serialize r = inr s /\ parse s = inr r.
Proof.
  intros Hr. exists (layout r). split.
  - apply serialize_layout, Hr.
  - unfold parse. rewrite <- (app_nil_r (layout r)).
    apply parse_layout_app, Hr.
Qed.

(** C6. For a valid record the writer produces the magic, the version, the
    width and the height on 4 bytes each, the color length on 8 bytes, the
    color payload and, for version 1 only, the alpha length on 8 bytes and
    the alpha payload, all big-endian and with nothing in between: 28 + N
    bytes for version 0 and 36 + N + M bytes for version 1. *)
Theorem serialize_byte_layout (r : MilimgHeader) :
  valid_record r ->
  exists s,
    serialize r = inr s /\
    (version r = 0 ->
       s = magic ++ be_encode 4 0 ++ be_encode 4 (width r)
                 ++ be_encode 4 (height r)
                 ++ be_encode 8 (len (color_payload r)) ++ color_payload r
       /\ len s = 28 + len (color_payload r)) /\
    (version r = 1 ->
       exists a,
         alpha_payload r = Some a /\
         s = magic ++ be_encode 4 1 ++ be_encode 4 (width r)
                   ++ be_encode 4 (height r)
                   ++ be_encode 8 (len (color_payload r)) ++ color_payload r
                   ++ be_encode 8 (len a) ++ a
         /\ len s = 36 + len (color_payload r) + len a).
Proof.
  intros Hr. exists (layout r). split; [apply serialize_layout, Hr|].
  pose proof (layout_length r) as HL.
  destruct Hr as [[[Hv Ha] | [Hv [a Ha]]] _]; (split; intros Hv'; [|]);
    try (rewrite Hv in Hv'; discriminate).
  - unfold layout in *. rewrite Ha, Hv in *. rewrite app_nil_r in *.
    split; [reflexivity | lia].
  - exists a. unfold layout in *. rewrite Ha, Hv in *. cbn [Z.eqb Pos.eqb] in *.
    split; [reflexivity | split; [reflexivity | lia]].
Qed.

Ltac check_valid_record :=
  unfold valid_record, coupled;
  cbn [version width height color_payload alpha_payload];
  repeat split;
  try solve
    [ lia
    | reflexivity
    | discriminate
    | left; split; reflexivity
    | right; split; [reflexivity | eexists; reflexivity]
    | intros ? [= <-]; reflexivity
    | intros ? [=] ].

Lemma parse_serialize_roundtrip_witness :
  exists s, serialize scenario_A = inr s /\ parse s = inr scenario_A.
Proof. apply (parse_serialize_roundtrip scenario_A). check_valid_record. Defined.

Lemma serialize_byte_layout_witness :
  exists s,
    serialize (mkMilimgHeader 1 3 1 [x01; x02; x03; x04; x05]
                              (Some [x0a; x0b; x0c])) = inr s /\ len s = 44.
Proof.
  destruct (serialize_byte_layout
              (mkMilimgHeader 1 3 1 [x01; x02; x03; x04; x05]
                              (Some [x0a; x0b; x0c])))
    as (s & Hs & _ & H1).
  - check_valid_record.
  - exists s. split; [exact Hs|].
    destruct (H1 eq_refl) as (a & Ha & _ & Hlen).
    injection Ha as <-. exact Hlen.
Defined.

(** C7. The record with version 0, width 4, height 2 and color payload
    b"AB" is written as exactly 30 bytes: Milimg00, 00000000, 00000004,
    00000002, 0000000000000002 and the two bytes 0x41 0x42. *)
Theorem serialize_scenario_A :
  serialize (mkMilimgHeader 0 4 2 [x41; x42] None)
  = inr ([x4d; x69; x6c; x69; x6d; x67; x30; x30]
         ++ [x00; x00; x00; x00]
         ++ [x00; x00; x00; x04]
         ++ [x00; x00; x00; x02]
         ++ [x00; x00; x00; x00; x00; x00; x00; x02]
         ++ [x41; x42])
  /\ (exists s, serialize (mkMilimgHeader 0 4 2 [x41; x42] None) = inr s
                /\ length s = 30%nat).
Proof.
  split; [vm_compute; reflexivity|].
  eexists. split; vm_compute; reflexivity.
Qed.

(** C9. The reader does not check for trailing bytes: for a well-formed
    stream [s] and any extra bytes [t], parsing [s ++ t] succeeds with the
    same record as parsing [s]. *)
Theorem parse_ignores_trailing_bytes (s t : bytes) :
  well_formed s ->
  exists r, parse s = inr r /\ parse (s ++ t) = inr r.
Proof.
  intros (r & Hr & Hs). rewrite (serialize_layout r Hr) in Hs.
  injection Hs as <-. exists r. unfold parse. split.
  - rewrite <- (app_nil_r (layout r)). apply parse_layout_app, Hr.
  - apply parse_layout_app, Hr.
Qed.

Lemma parse_ignores_trailing_bytes_witness :
  exists r,
    parse (layout (mkMilimgHeader 1 2 2 [x07] (Some []))) = inr r /\
    parse (layout (mkMilimgHeader 1 2 2 [x07] (Some [])) ++ [xff; xfe]) = inr r.
Proof.
  apply (parse_ignores_trailing_bytes
           (layout (mkMilimgHeader 1 2 2 [x07] (Some []))) [xff; xfe]).
  exists (mkMilimgHeader 1 2 2 [x07] (Some [])). split.
  - check_valid_record.
  - vm_compute. reflexivity.
Defined.

(** Well-formedness matters: on a stream whose color payload is shorter
    than declared, the reader takes the extra bytes for payload. *)
Remark extra_bytes_fill_short_payload :
  parse (firstn 29 (layout scenario_A))
    = inr (mkMilimgHeader 0 4 2 [x41] None) /\
  parse (firstn 29 (layout scenario_A) ++ [x5a])
    = inr (mkMilimgHeader 0 4 2 [x41; x5a] None).
Proof. split; vm_compute; reflexivity. Qed.

(** C4. Whenever the first 8 bytes of the input are not Milimg00 the reader
    fails with the invalid-magic error, whatever follows them and also when
    nothing does. *)
Theorem parse_rejects_bad_magic (f : bytes) :
  firstn 8 f <> magic -> parse f = inl BadMagic.
Proof. intros H. apply parse_invalid_magic, H. Qed.

Lemma parse_rejects_bad_magic_witness :
  parse [x4d; x69; x6c; x69; x6d; x67; x30; x31] = inl BadMagic.
Proof.
  apply (parse_rejects_bad_magic [x4d; x69; x6c; x69; x6d; x67; x30; x31]).
  vm_compute. discriminate.
Defined.

(** C5. When the input starts with the magic and its 4-byte big-endian
    version field is neither 0 nor 1, the reader fails with the
    unsupported-version error. *)
Theorem parse_rejects_unsupported_version (f : bytes) :
  firstn 8 f = magic ->
  (12 <= length f)%nat ->
  be_decode (firstn 4 (skipn 8 f)) <> 0 ->
  be_decode (firstn 4 (skipn 8 f)) <> 1 ->
  parse f = inl (UnsupportedVersion (be_decode (firstn 4 (skipn 8 f)))).
Proof.
  intros Hm Hlen H0 H1.
  rewrite <- (firstn_skipn 8 f) at 1. rewrite Hm.
  rewrite <- (firstn_skipn 4 (skipn 8 f)) at 1.
  apply parse_unsupported_version; try assumption.
  rewrite length_firstn, length_skipn. lia.
Qed.

Lemma parse_rejects_unsupported_version_witness :
  parse (magic ++ [x00; x00; x00; x02] ++ [x00; x00; x00; x04])
  = inl (UnsupportedVersion 2).
Proof.
  apply (parse_rejects_unsupported_version
           (magic ++ [x00; x00; x00; x02] ++ [x00; x00; x00; x04]));
    vm_compute; solve [reflexivity | discriminate | lia].
Defined.

(** C10. An input of fewer than 8 bytes, the empty one included, fails with
    the invalid-magic error and not with the error of a short read: the
    comparison is made on whatever the read returned. *)
Theorem parse_short_input_bad_magic (f : bytes) :
  (length f < 8)%nat ->
  parse f = inl BadMagic /\ parse f <> inl Truncated.
Proof.
  intros H.
  assert (E : parse f = inl BadMagic).
  { apply parse_invalid_magic. intros Hm.
    apply (f_equal (@length byte)) in Hm.
    rewrite length_firstn in Hm. cbn [magic length] in Hm. lia. }
  split; [exact E | rewrite E; discriminate].
Qed.

Lemma parse_short_input_bad_magic_witness :
  parse [] = inl BadMagic /\ parse [] <> inl Truncated.
Proof. apply (parse_short_input_bad_magic []). cbn [length]. lia. Defined.

(** ** Truncated streams *)

Lemma firstn_app_le {A} (k : nat) (a b : list A) :
  (length a <= k)%nat -> firstn k (a ++ b) = a ++ firstn (k - length a) b.
Proof. intros H. rewrite firstn_app, firstn_all2 by exact H. reflexivity. Qed.

Lemma firstn_length_firstn {A} (j : nat) (l : list A) :
  firstn (length l) (firstn j l) = firstn j l.
Proof. apply firstn_all2. rewrite length_firstn. lia. Qed.

Lemma firstn_after_magic (k : nat) (rest : bytes) :
  (8 <= k)%nat -> firstn k (magic ++ rest) = magic ++ firstn (k - 8) rest.
Proof. intros H. rewrite firstn_app_le by exact H. reflexivity. Qed.

Lemma firstn_after_field (n k : nat) (v : Z) (rest : bytes) :
  (n <= k)%nat ->
  firstn k (be_encode n v ++ rest) = be_encode n v ++ firstn (k - n) rest.
Proof.
  intros H. rewrite firstn_app_le by (rewrite be_encode_length; exact H).
  rewrite be_encode_length. reflexivity.
Qed.

Lemma firstn_after_header (k : nat) (v w h n : Z) (body : bytes) :
  (28 <= k)%nat ->
  firstn k (magic ++ be_encode 4 v ++ be_encode 4 w ++ be_encode 4 h
                  ++ be_encode 8 n ++ body)
  = magic ++ be_encode 4 v ++ be_encode 4 w ++ be_encode 4 h
          ++ be_encode 8 n ++ firstn (k - 28) body.
Proof.
  intros H. rewrite firstn_after_magic by lia.
  rewrite !firstn_after_field by lia.
  replace (k - 8 - 4 - 4 - 4 - 8)%nat with (k - 28)%nat by lia. reflexivity.
Qed.

(** A cut inside the first 8 bytes. *)
Lemma parse_cut_in_magic (k : nat) (s : bytes) :
  (k < 8)%nat ->
  parse_milimg_container (firstn k s) = inl ValueError_invalid_magic.
Proof.
  intros H. apply parse_invalid_magic. intros Hm.
  apply (f_equal (@length byte)) in Hm.
  rewrite !length_firstn in Hm. cbn [magic length] in Hm. lia.
Qed.

(** A cut inside the version, the dimensions or the color length. *)
Lemma parse_cut_in_header (k : nat) (v : Z) (rest : bytes) :
  v = 0 \/ v = 1 -> (8 <= k < 28)%nat ->
  parse_milimg_container (firstn k (magic ++ be_encode 4 v ++ rest))
  = inl struct_error.
Proof.
  intros Hv Hk. rewrite firstn_after_magic by lia.
  destruct (Nat.lt_ge_cases k 12) as [Hlt | Hge].
  - apply parse_short_version. rewrite length_firstn. lia.
  - rewrite firstn_after_field by lia.
    apply parse_short_header.
    + apply be_encode_length.
    + rewrite decode_field_4 by (destruct Hv; subst v; lia). exact Hv.
    + rewrite length_firstn. lia.
Qed.

(** C2, as stated, fails: the 30-byte stream of scenario A cut after 29
    bytes, inside the color payload, is accepted, with a one-byte color
    payload. *)
Lemma parse_truncated_payload_accepted :
  valid_record scenario_A /\
  serialize scenario_A = inr (layout scenario_A) /\
  (29 < length (layout scenario_A))%nat /\
  parse (firstn 29 (layout scenario_A))
    = inr (mkMilimgHeader 0 4 2 [x41] None) /\
  parse (firstn 29 (layout scenario_A)) <> inl Truncated.
Proof.
  split; [check_valid_record|].
  split; [vm_compute; reflexivity|].
  split; [vm_compute; lia|].
  assert (E : parse (firstn 29 (layout scenario_A))
              = inr (mkMilimgHeader 0 4 2 [x41] None))
    by (vm_compute; reflexivity).
  split; [exact E | rewrite E; discriminate].
Qed.

(** C2, amended.  Let [s] be the serialization of a valid record with color
    payload of [N] bytes, cut after [k] bytes.  A cut inside the magic fails
    with the invalid-magic error; a cut inside the rest of the header fails
    with the short-read error.  For version 0 a cut at or after byte 28
    succeeds, with the color payload cut short.  For version 1 a cut inside
    the color payload or the alpha length fails with the short-read error,
    and a cut at or after byte 36 + N succeeds, with the alpha payload cut
    short.  The whole stream parses to the record. *)
Theorem parse_cut_stream (r : MilimgHeader) (s : bytes) (k : nat) :
  valid_record r ->
  serialize r = inr s ->
  ((k < 8)%nat -> parse (firstn k s) = inl BadMagic) /\
  ((8 <= k < 28)%nat -> parse (firstn k s) = inl Truncated) /\
  (version r = 0 -> (28 <= k)%nat ->
     parse (firstn k s)
     = inr (mkMilimgHeader 0 (width r) (height r)
              (firstn (k - 28) (color_payload r)) None)) /\
  (version r = 1 -> (28 <= k < 36 + length (color_payload r))%nat ->
     parse (firstn k s) = inl Truncated) /\
  (version r = 1 -> (36 + length (color_payload r) <= k)%nat ->
     forall a, alpha_payload r = Some a ->
     parse (firstn k s)
     = inr (mkMilimgHeader 1 (width r) (height r) (color_payload r)
              (Some (firstn (k - 36 - length (color_payload r)) a)))) /\
  parse s = inr r.
Proof.
  intros Hr Hs. rewrite (serialize_layout r Hr) in Hs. injection Hs as <-.
  assert (Hfull : parse (layout r) = inr r).
  { unfold parse. rewrite <- (app_nil_r (layout r)).
    apply parse_layout_app, Hr. }
  unfold parse in *.
  split; [intros Hk; apply parse_cut_in_magic, Hk|].
  destruct r as [v w h c a]. unfold valid_record, coupled, layout in *.
  cbn [version width height color_payload alpha_payload] in *.
  destruct Hr as [Hva (Hw & Hh & Hc & Ha)].
  split.
  { intros Hk. apply parse_cut_in_header; [|exact Hk].
    destruct Hva as [[-> _] | [-> _]]; [left | right]; reflexivity. }
  destruct Hva as [[-> ->] | [-> [a' ->]]].
  - split; [|split; [intros [=]|split; [intros [=]|exact Hfull]]].
    intros _ Hk. rewrite firstn_after_header by exact Hk.
    rewrite parse_header_0 by assumption.
    rewrite app_nil_r, firstn_length_firstn. reflexivity.
  - specialize (Ha a' eq_refl). cbn [Z.eqb Pos.eqb] in *.
    split; [intros [=]|]. split; [|split; [|exact Hfull]].
    + intros _ Hk. rewrite firstn_after_header by lia.
      apply parse_header_1_short; try assumption.
      rewrite length_skipn, length_firstn. lia.
    + intros _ Hk a [= <-]. rewrite firstn_after_header by lia.
      rewrite firstn_app_le by lia.
      rewrite firstn_after_field by lia.
      rewrite (parse_header_1 w h c Hw Hh Hc _ a'
                 (firstn (k - 28 - length c - 8) a') Ha)
        by apply skipn_exact.
      rewrite firstn_exact, firstn_length_firstn.
      replace (k - 28 - length c - 8)%nat with (k - 36 - length c)%nat by lia.
      reflexivity.
Qed.

Lemma parse_cut_stream_witness :
  parse (firstn 29 (layout scenario_A))
  = inr (mkMilimgHeader 0 4 2 (firstn (29 - 28) [x41; x42]) None).
Proof.
  destruct (parse_cut_stream scenario_A (layout scenario_A) 29)
    as (_ & _ & H0 & _).
  - check_valid_record.
  - vm_compute. reflexivity.
  - apply H0; [reflexivity | lia].
Defined.

(** ** Version and alpha payload *)

Lemma parse_success_coupled (f : bytes) (r : MilimgHeader) :
  parse_milimg_container f = inr r -> coupled r.
Proof.
  unfold parse_milimg_container, parse_milimg_container_io.
  unfold bind, fread, lift, ret, raise.
  destruct (negb (bytes_eqb (firstn (Z.to_nat 8) f) magic)); [intros [=]|].
  destruct (struct_unpack_I _) as [e|v]; [intros [=]|].
  destruct (Z.eqb_spec v 0) as [->|H0]; cbn [orb negb Z.eqb].
  - destruct (struct_unpack_IIQ _) as [e|[[w h] n]]; [intros [=]|].
    cbn [fst]. intros [= <-]. left. split; reflexivity.
  - destruct (Z.eqb_spec v 1) as [->|H1]; cbn [negb]; [|intros [=]].
    destruct (struct_unpack_IIQ _) as [e|[[w h] n]]; [intros [=]|].
    destruct (struct_unpack_Q _) as [e|m]; [intros [=]|].
    cbn [fst]. intros [= <-]. right. split; [reflexivity|]. eexists. reflexivity.
Qed.

Lemma assemble_success (v w h : Z) (c : bytes) (a : option bytes) (f0 : bytes) :
  fst (assemble_milimg v w h c a f0) = inr tt ->
  0 <= v < 2 ^ 32 /\ 0 <= w < 2 ^ 32 /\ 0 <= h < 2 ^ 32 /\ len c < 2 ^ 64 /\
  (v = 1 -> exists a', a = Some a' /\ len a' < 2 ^ 64).
Proof.
  unfold assemble_milimg, struct_pack_I, struct_pack_Q, py_len.
  fold (len c). unfold bind, lift, fwrite, ret, raise.
  destruct (fits 32 v) eqn:Ev; [|intros [=]].
  destruct (fits 32 w) eqn:Ew; [|intros [=]].
  destruct (fits 32 h) eqn:Eh; [|intros [=]].
  destruct (fits 64 (len c)) eqn:Ec; [|intros [=]].
  apply fits_range in Ev, Ew, Eh, Ec.
  intros H. repeat (split; [lia|]). intros ->. cbn [Z.eqb Pos.eqb] in H.
  destruct a as [a'|]; [|discriminate H].
  fold (len a') in H.
  destruct (fits 64 (len a')) eqn:Ea; [|discriminate H].
  apply fits_range in Ea. exists a'. split; [reflexivity | lia].
Qed.

Lemma assemble_emits_version (v w h : Z) (c : bytes) (a : option bytes) :
  0 <= v < 2 ^ 32 ->
  exists tail, snd (assemble_milimg v w h c a []) = magic ++ be_encode 4 v ++ tail.
Proof.
  intros Hv.
  unfold assemble_milimg, struct_pack_I, struct_pack_Q, py_len.
  rewrite (fits_true 32 v) by exact Hv.
  unfold bind, lift, fwrite, ret, raise. cbn [app].
  destruct (fits 32 w); [|exists []; rewrite app_nil_r; reflexivity].
  destruct (fits 32 h); [|eexists; cbn [snd]; rewrite <- !app_assoc; reflexivity].
  destruct (fits 64 _); [|eexists; cbn [snd]; rewrite <- !app_assoc; reflexivity].
  destruct (v =? 1); [|eexists; cbn [snd]; rewrite <- !app_assoc; reflexivity].
  destruct a as [a'|]; [|eexists; cbn [snd]; rewrite <- !app_assoc; reflexivity].
  destruct (fits 64 _); eexists; cbn [snd]; rewrite <- !app_assoc; reflexivity.
Qed.

(** ** The encoder *)

Section EncoderInvariant.

Variable Image : Type.
Variable img_mode : Image -> string.
Variable info_contains : Image -> string -> bool.
Variable getchannel : Image -> string -> Image.
Variable getdata : Image -> list Z.
Variable convert : Image -> string -> Image.
Variable size : Image -> Z * Z.
Variable encode_to_av1 : Image -> Z -> bool -> bytes.

(** The encoder only ever assembles a version 0 without alpha payload or a
    version 1 with one. *)
Lemma encode_milimg_assembles (opened : Image) (quality : Z) :
  exists v w h c a,
    coupled (mkMilimgHeader v w h c a) /\
    encode_milimg Image img_mode info_contains getchannel getdata
      convert size encode_to_av1 opened quality
    = assemble_milimg v w h c a.
Proof.
  unfold encode_milimg.
  destruct (size (convert opened "RGBA")) as [w h].
  destruct (has_transparency _ _ _ _ _ _); cbn [Z.eqb Pos.eqb];
    do 5 eexists; (split; [|reflexivity]); unfold coupled;
    cbn [version alpha_payload];
    [right; split; [reflexivity | eexists; reflexivity]
    | left; split; reflexivity].
Qed.

(** C8. A record returned by the reader has version 0 and no alpha payload,
    or version 1 and an alpha payload (which may be empty).  A stream the
    encoder has written is the layout of such a record and parses back to
    it.  Whatever the encoder wrote, finished or not, carries a version
    field equal to 0 or 1. *)
Theorem coupled_invariant :
  (forall f r,
     parse f = inr r -> (version r = 0 \/ version r = 1) /\ coupled r) /\
  (forall opened quality s,
     written (encode_milimg Image img_mode info_contains getchannel getdata
       convert size encode_to_av1 opened quality) = inr s ->
     exists r,
       (version r = 0 \/ version r = 1) /\ coupled r /\
       s = layout r /\ parse s = inr r) /\
  (forall opened quality,
     let out :=
       snd (encode_milimg Image img_mode info_contains getchannel getdata
            convert size encode_to_av1 opened quality []) in
     be_decode (firstn 4 (skipn 8 out)) = 0 \/
     be_decode (firstn 4 (skipn 8 out)) = 1).
Proof.
  assert (Hversion : forall r, coupled r -> version r = 0 \/ version r = 1).
  { intros r [[H _] | [H _]]; [left | right]; exact H. }
  split; [|split].
  - intros f r H. apply parse_success_coupled in H.
    split; [apply Hversion|]; exact H.
  - intros opened quality s.
    destruct (encode_milimg_assembles opened quality)
      as (v & w & h & c & a & Hc & ->).
    unfold written.
    destruct (assemble_milimg v w h c a []) as [[e|[]] out] eqn:E;
      [intros [=] | intros [= <-]].
    pose proof (assemble_success v w h c a []) as Hfit.
    rewrite E in Hfit. destruct (Hfit eq_refl) as (Hv & Hw & Hh & Hlen & Ha).
    assert (Hr : valid_record (mkMilimgHeader v w h c a)).
    { unfold valid_record.
      cbn [version width height color_payload alpha_payload].
      repeat (split; [assumption|]). intros a' ->.
      destruct Hc as [[_ [=]] | [Hv1 _]]. cbn [version] in Hv1.
      destruct (Ha Hv1) as (a0 & [= <-] & Ha0). exact Ha0. }
    exists (mkMilimgHeader v w h c a).
    split; [apply Hversion, Hc|]. split; [exact Hc|].
    pose proof (serialize_layout _ Hr) as Hs. unfold serialize, written in Hs.
    cbn [version width height color_payload alpha_payload] in Hs.
    rewrite E in Hs. injection Hs as ->.
    split; [reflexivity|]. unfold parse.
    rewrite <- (app_nil_r (layout _)). apply parse_layout_app, Hr.
  - intros opened quality.
    destruct (encode_milimg_assembles opened quality)
      as (v & w & h & c & a & Hc & ->).
    assert (Hv : v = 0 \/ v = 1) by (apply (Hversion _ Hc)).
    destruct (assemble_emits_version v w h c a) as [tail ->];
      [destruct Hv; subst v; lia|].
    cbv zeta. rewrite (skipn_exact_n 8 magic) by reflexivity.
    rewrite (firstn_exact_n 4) by apply be_encode_length.
    rewrite decode_field_4 by (destruct Hv; subst v; lia). exact Hv.
Qed.

End EncoderInvariant.

Lemma coupled_invariant_witness :
  (version scenario_A = 0 \/ version scenario_A = 1) /\ coupled scenario_A.
Proof.
  apply (proj1 (coupled_invariant unit (fun _ => "RGBA"%string)
                  (fun _ _ => false) (fun _ _ => tt) (fun _ => [255])
                  (fun _ _ => tt) (fun _ => (4, 2))
                  (fun _ _ _ => [x41; x42]))
               (layout scenario_A) scenario_A).
  vm_compute. reflexivity.
Defined.

(** * Further properties of the reader *)

(** ** Big-endian fields, the other way round *)

Lemma be_decode_range (buf : bytes) :
  0 <= be_decode buf < 2 ^ (8 * Z.of_nat (length buf)).
Proof.
  induction buf as [|b buf IH].
  - cbn. lia.
  - rewrite be_decode_cons. pose proof (Z_of_byte_range b) as Hb.
    cbn [length].
    replace (8 * Z.of_nat (S (length buf)))
      with (8 + 8 * Z.of_nat (length buf)) by lia.
    rewrite Z.pow_add_r by lia. change (2 ^ 8) with 256.
    set (B := 2 ^ (8 * Z.of_nat (length buf))) in *. nia.
Qed.

Lemma byte_of_Z_of_byte (b : byte) : byte_of_Z (Z_of_byte b) = b.
Proof.
  unfold byte_of_Z. rewrite Z.mod_small by apply Z_of_byte_range.
  unfold Z_of_byte. rewrite N2Z.id, Byte.of_to_N. reflexivity.
Qed.

Lemma byte_of_Z_mod (z m : Z) : byte_of_Z (z + m * 256) = byte_of_Z z.
Proof. unfold byte_of_Z. rewrite Z.mod_add by lia. reflexivity. Qed.

(** Only the [n] low-order bytes of the value are encoded. *)
Lemma be_encode_low (n : nat) (v m : Z) :
  be_encode n (v + m * 2 ^ (8 * Z.of_nat n)) = be_encode n v.
Proof.
  revert m. induction n as [|k IH]; intros m; [reflexivity|].
  cbn [be_encode].
  replace (8 * Z.of_nat (S k)) with (8 * Z.of_nat k + 8) by lia.
  rewrite Z.pow_add_r by lia. change (2 ^ 8) with 256.
  set (B := 2 ^ (8 * Z.of_nat k)).
  assert (HB : 0 < B) by (apply Z.pow_pos_nonneg; lia).
  f_equal.
  - rewrite !Z.shiftr_div_pow2 by lia. fold B.
    replace (v + m * (B * 256)) with (v + (m * 256) * B) by lia.
    rewrite Z.div_add by lia. apply byte_of_Z_mod.
  - replace (v + m * (B * 256)) with (v + (m * 256) * B) by lia.
    apply IH.
Qed.

(** Encoding undoes decoding on a field of the right size. *)
Lemma be_encode_decode (buf : bytes) :
  be_encode (length buf) (be_decode buf) = buf.
Proof.
  induction buf as [|b buf IH]; [reflexivity|].
  cbn [length be_encode]. rewrite be_decode_cons.
  pose proof (be_decode_range buf) as Hr.
  set (B := 2 ^ (8 * Z.of_nat (length buf))) in *.
  assert (HB : 0 < B) by (apply Z.pow_pos_nonneg; lia).
  f_equal.
  - rewrite Z.shiftr_div_pow2 by lia. fold B.
    rewrite Z.add_comm, Z.div_add by lia.
    rewrite Z.div_small by lia. apply byte_of_Z_of_byte.
  - rewrite Z.add_comm. unfold B. rewrite be_encode_low. exact IH.
Qed.

Lemma be_encode_decode_n (n : nat) (buf : bytes) :
  length buf = n -> be_encode n (be_decode buf) = buf.
Proof. intros <-. apply be_encode_decode. Qed.

(** ** Slices *)

Lemma slice_length (i j : nat) (f : bytes) :
  (j <= length f)%nat -> length (slice i j f) = (j - i)%nat.
Proof. intros H. unfold slice. rewrite length_firstn, length_skipn. lia. Qed.

Lemma skipn_slice (i j : nat) (f : bytes) :
  (i <= j)%nat -> skipn i f = slice i j f ++ skipn j f.
Proof.
  intros H. unfold slice.
  rewrite <- (firstn_skipn (j - i) (skipn i f)) at 1.
  rewrite skipn_skipn. replace (j - i + i)%nat with j by lia. reflexivity.
Qed.

Lemma slice_plus (i n : nat) (f : bytes) :
  slice i (i + n) f = firstn n (skipn i f).
Proof. unfold slice. replace (i + n - i)%nat with n by lia. reflexivity. Qed.

Lemma split_magic (f : bytes) : f = firstn 8 f ++ skipn 8 f.
Proof. symmetry. apply firstn_skipn. Qed.

(** A stream of at least 28 bytes, field by field. *)
Lemma split_header (f : bytes) :
  f = firstn 8 f ++ slice 8 12 f ++ slice 12 16 f ++ slice 16 20 f
        ++ slice 20 28 f ++ skipn 28 f.
Proof.
  rewrite <- (skipn_slice 20 28), <- (skipn_slice 16 20),
    <- (skipn_slice 12 16), <- (skipn_slice 8 12) by lia.
  apply split_magic.
Qed.

(** ** The outcome of the reader, by the length and the fields of the input *)

Lemma parse_below_12 (f : bytes) :
  firstn 8 f = magic -> (length f < 12)%nat ->
  parse_milimg_container f = inl struct_error.
Proof.
  intros Hm Hlen. rewrite (split_magic f), Hm.
  apply parse_short_version. rewrite length_skipn. lia.
Qed.

Lemma parse_version_field_rejected (f : bytes) :
  firstn 8 f = magic -> (12 <= length f)%nat ->
  version_field f <> 0 -> version_field f <> 1 ->
  parse_milimg_container f
  = inl (ValueError_unsupported_version (version_field f)).
Proof.
  intros Hm Hlen H0 H1.
  rewrite (split_magic f) at 1. rewrite Hm, (skipn_slice 8 12) by lia.
  apply parse_unsupported_version; try assumption.
  apply slice_length, Hlen.
Qed.

Lemma parse_below_28 (f : bytes) :
  firstn 8 f = magic -> (12 <= length f < 28)%nat ->
  version_field f = 0 \/ version_field f = 1 ->
  parse_milimg_container f = inl struct_error.
Proof.
  intros Hm Hlen Hv.
  rewrite (split_magic f) at 1. rewrite Hm, (skipn_slice 8 12) by lia.
  apply parse_short_header; try assumption.
  - apply slice_length. lia.
  - rewrite length_skipn. lia.
Qed.

Lemma parse_at_offsets_0 (f : bytes) :
  firstn 8 f = magic -> (28 <= length f)%nat -> version_field f = 0 ->
  parse_milimg_container f
  = inr (mkMilimgHeader 0 (be_decode (slice 12 16 f))
           (be_decode (slice 16 20 f))
           (slice 28 (28 + color_size_field f) f) None).
Proof.
  intros Hm Hlen Hv. rewrite (split_header f) at 1. rewrite Hm.
  rewrite parse_version_0 by (try apply slice_length; (lia || exact Hv)).
  rewrite (slice_plus 28). reflexivity.
Qed.

Lemma parse_below_alpha (f : bytes) :
  firstn 8 f = magic -> (28 <= length f)%nat -> version_field f = 1 ->
  (length f < 36 + color_size_field f)%nat ->
  parse_milimg_container f = inl struct_error.
Proof.
  intros Hm Hlen Hv Hshort. rewrite (split_header f) at 1. rewrite Hm.
  apply parse_version_1_short;
    try (apply slice_length; lia); try exact Hv.
  fold (color_size_field f). rewrite !length_skipn. lia.
Qed.

Lemma parse_at_offsets_1 (f : bytes) :
  firstn 8 f = magic -> version_field f = 1 ->
  (36 + color_size_field f <= length f)%nat ->
  parse_milimg_container f
  = inr (mkMilimgHeader 1 (be_decode (slice 12 16 f))
           (be_decode (slice 16 20 f))
           (slice 28 (28 + color_size_field f) f)
           (Some (slice (36 + color_size_field f)
                        (36 + color_size_field f + alpha_size_field f) f))).
Proof.
  intros Hm Hv Hlen. rewrite (split_header f) at 1. rewrite Hm.
  set (N := color_size_field f) in *.
  rewrite (parse_version_1 _ _ _ _ _ (slice (28 + N) (36 + N) f)
             (skipn (36 + N) f));
    try (apply slice_length; lia); try exact Hv.
  - rewrite (slice_plus 28), (slice_plus (36 + N)). reflexivity.
  - fold (color_size_field f). fold N. rewrite skipn_skipn.
    replace (N + 28)%nat with (28 + N)%nat by lia.
    apply skipn_slice. lia.
  - rewrite slice_length by lia. lia.
Qed.

(** Every input falls under exactly one of the seven lemmas above. *)
Lemma parse_success_inv (f : bytes) (r : MilimgHeader) :
  parse_milimg_container f = inr r ->
  firstn 8 f = magic /\
  ((28 <= length f)%nat /\ version_field f = 0 /\
   r = mkMilimgHeader 0 (be_decode (slice 12 16 f))
         (be_decode (slice 16 20 f))
         (slice 28 (28 + color_size_field f) f) None
   \/
   (36 + color_size_field f <= length f)%nat /\ version_field f = 1 /\
   r = mkMilimgHeader 1 (be_decode (slice 12 16 f))
         (be_decode (slice 16 20 f))
         (slice 28 (28 + color_size_field f) f)
         (Some (slice (36 + color_size_field f)
                      (36 + color_size_field f + alpha_size_field f) f))).
Proof.
  intros H.
  destruct (list_eq_dec byte_eq_dec (firstn 8 f) magic) as [Hm|Hm];
    [|rewrite parse_invalid_magic in H by exact Hm; discriminate].
  split; [exact Hm|].
  destruct (le_lt_dec 12 (length f)) as [H12|H12];
    [|rewrite parse_below_12 in H by assumption; discriminate].
  destruct (Z.eq_dec (version_field f) 0) as [H0|H0].
  - destruct (le_lt_dec 28 (length f)) as [H28|H28];
      [|rewrite parse_below_28 in H by (auto; lia); discriminate].
    rewrite parse_at_offsets_0 in H by assumption.
    left. repeat split; congruence.
  - destruct (Z.eq_dec (version_field f) 1) as [H1|H1];
      [|rewrite parse_version_field_rejected in H by assumption;
        discriminate].
    destruct (le_lt_dec 28 (length f)) as [H28|H28];
      [|rewrite parse_below_28 in H by (auto; lia); discriminate].
    destruct (le_lt_dec (36 + color_size_field f) (length f)) as [Ha|Ha];
      [|rewrite parse_below_alpha in H by assumption; discriminate].
    rewrite parse_at_offsets_1 in H by assumption.
    right. repeat split; congruence.
Qed.

(** X1. The reader by offsets, on an input that holds what it declares.
    On an input that starts with the magic: when the version field is 0
    and the [N] bytes declared in [f[20:28]] are there (28 + N bytes at
    least), the result has width [f[12:16]], height [f[16:20]] and color
    payload [f[28:28+N]]; when the version field is 1 and also the [M]
    bytes declared in [f[28+N:36+N]] are there (36 + N + M bytes at least),
    the alpha payload is [f[36+N:36+N+M]].  The payloads have exactly the
    declared lengths. *)
Theorem parse_reads_fields_at_offsets (f : bytes) :
  firstn 8 f = magic ->
  (version_field f = 0 ->
   (28 + color_size_field f <= length f)%nat ->
     parse_milimg_container f
     = inr (mkMilimgHeader 0 (be_decode (slice 12 16 f))
              (be_decode (slice 16 20 f))
              (slice 28 (28 + color_size_field f) f) None) /\
     length (slice 28 (28 + color_size_field f) f) = color_size_field f) /\
  (version_field f = 1 ->
   (36 + color_size_field f + alpha_size_field f <= length f)%nat ->
     parse_milimg_container f
     = inr (mkMilimgHeader 1 (be_decode (slice 12 16 f))
              (be_decode (slice 16 20 f))
              (slice 28 (28 + color_size_field f) f)
              (Some (slice (36 + color_size_field f)
                           (36 + color_size_field f + alpha_size_field f)
                           f))) /\
     length (slice 28 (28 + color_size_field f) f) = color_size_field f /\
     length (slice (36 + color_size_field f)
                   (36 + color_size_field f + alpha_size_field f) f)
     = alpha_size_field f).
Proof.
  intros Hm. split.
  - intros Hv Hlen. split.
    + apply parse_at_offsets_0; (assumption || lia).
    + rewrite slice_length by lia. lia.
  - intros Hv Hlen. split; [|split].
    + apply parse_at_offsets_1; (assumption || lia).
    + rewrite slice_length by lia. lia.
    + rewrite slice_length by lia. lia.
Qed.

Lemma parse_reads_fields_at_offsets_witness :
  parse_milimg_container (stream_v1 ++ [xff])
  = inr (mkMilimgHeader 1 3 1 [x01; x02; x03; x04; x05]
                        (Some [x0a; x0b; x0c])).
Proof.
  destruct (parse_reads_fields_at_offsets (stream_v1 ++ [xff])) as [_ H].
  - vm_compute. reflexivity.
  - destruct H as [H _]; [vm_compute; reflexivity | vm_compute; lia |].
    rewrite H. vm_compute. reflexivity.
Defined.

(** X2. When the reader fails with [struct.error], the input starts with
    the magic and ends too early: before byte 12; or before byte 28 with a
    version field of 0 or 1; or, with a version field of 1, before the end
    of the alpha length at byte 36 + N.  Conversely it does fail with
    [struct.error] on an input that starts with the magic and ends before
    byte 12, or before byte 28 with a version field of 0 or 1, or, with a
    version field of 1, after the whole color payload and before the end of
    the alpha length. *)
Theorem parse_struct_error_when (f : bytes) :
  (parse_milimg_container f = inl struct_error ->
   firstn 8 f = magic /\
   ((length f < 12)%nat \/
    ((version_field f = 0 \/ version_field f = 1) /\ (length f < 28)%nat) \/
    (version_field f = 1 /\ (length f < 36 + color_size_field f)%nat))) /\
  (firstn 8 f = magic ->
   (length f < 12)%nat \/
   ((version_field f = 0 \/ version_field f = 1) /\ (length f < 28)%nat) \/
   (version_field f = 1 /\
    (28 + color_size_field f <= length f < 36 + color_size_field f)%nat) ->
   parse_milimg_container f = inl struct_error).
Proof.
  split.
  - intros H.
    destruct (list_eq_dec byte_eq_dec (firstn 8 f) magic) as [Hm|Hm];
      [|rewrite parse_invalid_magic in H by exact Hm; discriminate].
    split; [exact Hm|].
    destruct (le_lt_dec 12 (length f)) as [H12|H12]; [|tauto].
    destruct (Z.eq_dec (version_field f) 0) as [H0|H0];
      [|destruct (Z.eq_dec (version_field f) 1) as [H1|H1]].
    + destruct (le_lt_dec 28 (length f)) as [H28|H28]; [|tauto].
      rewrite parse_at_offsets_0 in H by assumption. discriminate.
    + destruct (le_lt_dec 28 (length f)) as [H28|H28]; [|tauto].
      destruct (le_lt_dec (36 + color_size_field f) (length f)) as [Ha|Ha];
        [|tauto].
      rewrite parse_at_offsets_1 in H by assumption. discriminate.
    + rewrite parse_version_field_rejected in H by assumption. discriminate.
  - intros Hm [H12 | [[Hv H28] | [Hv Ha]]].
    + apply parse_below_12; assumption.
    + destruct (le_lt_dec 12 (length f)) as [H12|H12].
      * apply parse_below_28; (assumption || lia).
      * apply parse_below_12; assumption.
    + apply parse_below_alpha; (assumption || lia).
Qed.

Lemma parse_struct_error_when_witness :
  parse_milimg_container (magic ++ [x00]) = inl struct_error.
Proof.
  apply (proj2 (parse_struct_error_when (magic ++ [x00]))).
  - reflexivity.
  - left. cbn [magic app length]. lia.
Defined.

(** In the model, where a read of any size returns, an error of the reader
    is one of three. *)
Lemma parse_error_inv (f : bytes) (e : exn) :
  parse_milimg_container f = inl e ->
  (e = ValueError_invalid_magic /\ firstn 8 f <> magic) \/
  (e = struct_error /\ firstn 8 f = magic) \/
  (e = ValueError_unsupported_version (version_field f) /\
   firstn 8 f = magic /\ (12 <= length f)%nat /\
   version_field f <> 0 /\ version_field f <> 1).
Proof.
  intros H.
  destruct (list_eq_dec byte_eq_dec (firstn 8 f) magic) as [Hm|Hm];
    [|rewrite parse_invalid_magic in H by exact Hm; left; split;
      congruence].
  right.
  destruct (le_lt_dec 12 (length f)) as [H12|H12];
    [|rewrite parse_below_12 in H by assumption; left; split; congruence].
  destruct (Z.eq_dec (version_field f) 0) as [H0|H0];
    [|destruct (Z.eq_dec (version_field f) 1) as [H1|H1]].
  - destruct (le_lt_dec 28 (length f)) as [H28|H28].
    + rewrite parse_at_offsets_0 in H by assumption. discriminate.
    + rewrite parse_below_28 in H by (auto; lia). left; split; congruence.
  - destruct (le_lt_dec 28 (length f)) as [H28|H28];
      [|rewrite parse_below_28 in H by (auto; lia); left; split; congruence].
    destruct (le_lt_dec (36 + color_size_field f) (length f)) as [Ha|Ha].
    + rewrite parse_at_offsets_1 in H by assumption. discriminate.
    + rewrite parse_below_alpha in H by assumption. left; split; congruence.
  - rewrite parse_version_field_rejected in H by assumption.
    right. repeat split; congruence.
Qed.

(** X3. The two ValueErrors of the reader, exactly.  It fails with the
    invalid-magic error exactly when the first 8 bytes are not the magic,
    and with the unsupported-version error exactly when the input starts
    with the magic, has at least 12 bytes and holds in [f[8:12]] a value
    other than 0 and 1; the version reported is that value, and it lies in
    [0, 2^32). *)
Theorem parse_value_errors_iff (f : bytes) :
  (parse_milimg_container f = inl ValueError_invalid_magic <->
   firstn 8 f <> magic) /\
  (forall v,
     parse_milimg_container f = inl (ValueError_unsupported_version v) <->
     firstn 8 f = magic /\ (12 <= length f)%nat /\
     v = version_field f /\ v <> 0 /\ v <> 1) /\
  (forall v,
     parse_milimg_container f = inl (ValueError_unsupported_version v) ->
     0 <= v < 2 ^ 32).
Proof.
  assert (Hversion : forall v,
             parse_milimg_container f
             = inl (ValueError_unsupported_version v) ->
             firstn 8 f = magic /\ (12 <= length f)%nat /\
             v = version_field f /\ v <> 0 /\ v <> 1).
  { intros v H.
    destruct (parse_error_inv f _ H)
      as [[E _] | [[E _] | (E & Hm & H12 & H0 & H1)]];
      try discriminate E.
    injection E as ->. tauto. }
  split; [|split].
  - split.
    + intros H.
      destruct (parse_error_inv f _ H)
        as [[_ Hm] | [[E _] | (E & _)]]; [exact Hm | |]; discriminate E.
    + apply parse_invalid_magic.
  - intros v. split; [apply Hversion|].
    intros (Hm & H12 & -> & H0 & H1).
    apply parse_version_field_rejected; assumption.
  - intros v H. destruct (Hversion v H) as (_ & H12 & -> & _).
    pose proof (be_decode_range (slice 8 12 f)) as Hr.
    rewrite slice_length in Hr by lia. exact Hr.
Qed.

Lemma parse_value_errors_iff_witness :
  parse_milimg_container (magic ++ [x00; x00; x00; x07])
  = inl (ValueError_unsupported_version 7).
Proof.
  apply (proj2 (proj1 (proj2 (parse_value_errors_iff
                                (magic ++ [x00; x00; x00; x07]))) 7)).
  repeat split; try (cbn [magic app length]; lia); try discriminate.
Defined.

(** ** Records the reader returns *)

Lemma decode_slice_range (i j : nat) (f : bytes) :
  (j <= length f)%nat ->
  0 <= be_decode (slice i j f) < 2 ^ (8 * Z.of_nat (j - i)).
Proof.
  intros H. pose proof (be_decode_range (slice i j f)) as Hr.
  rewrite slice_length in Hr by exact H. exact Hr.
Qed.

Lemma len_slice_le (i j : nat) (f : bytes) :
  len (slice i j f) <= Z.of_nat (j - i) /\
  len (slice i j f) <= Z.of_nat (length f - i).
Proof.
  unfold len, slice. rewrite length_firstn, length_skipn. lia.
Qed.

Lemma color_size_field_bound (f : bytes) :
  (28 <= length f)%nat -> Z.of_nat (color_size_field f) < 2 ^ 64.
Proof.
  intros H. unfold color_size_field.
  pose proof (decode_slice_range 20 28 f H) as Hr.
  change (8 * Z.of_nat (28 - 20)) with 64 in Hr. lia.
Qed.

Lemma alpha_size_field_bound (f : bytes) :
  (36 + color_size_field f <= length f)%nat ->
  Z.of_nat (alpha_size_field f) < 2 ^ 64.
Proof.
  intros H. unfold alpha_size_field.
  pose proof (decode_slice_range (28 + color_size_field f)
                (36 + color_size_field f) f H) as Hr.
  replace (36 + color_size_field f - (28 + color_size_field f))%nat
    with 8%nat in Hr by lia.
  change (8 * Z.of_nat 8) with 64 in Hr. lia.
Qed.

Lemma parse_success_valid (f : bytes) (r : MilimgHeader) :
  parse_milimg_container f = inr r ->
  valid_record r /\ len (layout r) <= len f.
Proof.
  intros H. apply parse_success_inv in H.
  destruct H as [Hm [(H28 & Hv & ->) | (H36 & Hv & ->)]].
  - split.
    + unfold valid_record, coupled.
      cbn [version width height color_payload alpha_payload].
      split; [left; split; reflexivity|].
      split; [apply (decode_slice_range 12 16); lia|].
      split; [apply (decode_slice_range 16 20); lia|].
      split; [|intros a [=]].
      pose proof (color_size_field_bound f H28).
      pose proof (len_slice_le 28 (28 + color_size_field f) f). lia.
    + rewrite layout_length.
      cbn [version color_payload alpha_payload].
      pose proof (len_slice_le 28 (28 + color_size_field f) f).
      unfold len in *. lia.
  - split.
    + unfold valid_record, coupled.
      cbn [version width height color_payload alpha_payload].
      split; [right; split; [reflexivity | eexists; reflexivity]|].
      split; [apply (decode_slice_range 12 16); lia|].
      split; [apply (decode_slice_range 16 20); lia|].
      split.
      * pose proof (color_size_field_bound f ltac:(lia)).
        pose proof (len_slice_le 28 (28 + color_size_field f) f). lia.
      * intros a E.
        replace a with (slice (36 + color_size_field f)
                          (36 + color_size_field f + alpha_size_field f) f)
          by congruence.
        pose proof (alpha_size_field_bound f H36).
        pose proof (len_slice_le (36 + color_size_field f)
                      (36 + color_size_field f + alpha_size_field f) f).
        lia.
    + rewrite layout_length.
      cbn [version color_payload alpha_payload Z.eqb Pos.eqb].
      pose proof (len_slice_le 28 (28 + color_size_field f) f).
      pose proof (len_slice_le (36 + color_size_field f)
                    (36 + color_size_field f + alpha_size_field f) f).
      unfold len in *. lia.
Qed.

(** X4. A record the reader returns is a record of the data model: beside
    the coupling of version and alpha payload, its width and height are in
    [0, 2^32), its payload lengths are below 2^64, and its layout is no
    longer than the input it was read from. *)
Theorem parse_returns_valid_record (f : bytes) (r : MilimgHeader) :
  parse_milimg_container f = inr r ->
  valid_record r /\
  0 <= width r < 2 ^ 32 /\ 0 <= height r < 2 ^ 32 /\
  len (layout r) <= len f.
Proof.
  intros H. destruct (parse_success_valid f r H) as [Hr Hlen].
  split; [exact Hr|]. destruct Hr as (_ & Hw & Hh & _). auto.
Qed.

Lemma parse_returns_valid_record_witness :
  valid_record scenario_A /\
  0 <= width scenario_A < 2 ^ 32 /\ 0 <= height scenario_A < 2 ^ 32 /\
  len (layout scenario_A) <= len (layout scenario_A ++ [x00; x01]).
Proof.
  apply (parse_returns_valid_record (layout scenario_A ++ [x00; x01])).
  vm_compute. reflexivity.
Defined.

(** X5. Whatever the reader returns can be written again, and reading what
    was written gives the same record: on its own results the reader is
    the inverse of the writer, also for an input with a payload cut short
    or with trailing bytes. *)
Theorem parse_result_round_trips (f : bytes) (r : MilimgHeader) :
  parse_milimg_container f = inr r ->
  exists s, serialize r = inr s /\ parse_milimg_container s = inr r.
Proof.
  intros H. destruct (parse_success_valid f r H) as [Hr _].
  exists (layout r). split; [apply serialize_layout, Hr|].
  rewrite <- (app_nil_r (layout r)). apply parse_layout_app, Hr.
Qed.

Lemma parse_result_round_trips_witness :
  exists s,
    serialize (mkMilimgHeader 0 4 2 [x41] None) = inr s /\
    parse_milimg_container s = inr (mkMilimgHeader 0 4 2 [x41] None).
Proof.
  apply (parse_result_round_trips (firstn 29 (layout scenario_A))).
  vm_compute. reflexivity.
Defined.

(** X6. When the reader succeeds and the payloads it returns have the
    lengths the input declares (no read came back short), the input is the
    layout of the returned record followed by trailing bytes: the writer
    is then the inverse of the reader, up to what follows the last
    payload. *)
Theorem parse_input_is_layout (f : bytes) (r : MilimgHeader) :
  parse_milimg_container f = inr r ->
  color_size_field f = length (color_payload r) ->
  (forall a, alpha_payload r = Some a -> alpha_size_field f = length a) ->
  exists t, f = layout r ++ t.
Proof.
  intros H Hc Ha. apply parse_success_inv in H.
  assert (Hfield : forall i j v,
             (j <= length f)%nat -> (j - i = 4)%nat ->
             be_decode (slice i j f) = v -> be_encode 4 v = slice i j f).
  { intros i j v Hj Hij <-. apply be_encode_decode_n.
    rewrite slice_length by exact Hj. exact Hij. }
  assert (Hsize : forall i j n,
             (j <= length f)%nat -> (j - i = 8)%nat ->
             Z.to_nat (be_decode (slice i j f)) = n ->
             be_encode 8 (Z.of_nat n) = slice i j f).
  { intros i j n Hj Hij <-.
    pose proof (be_decode_range (slice i j f)) as Hr.
    rewrite Z2Nat.id by lia. apply be_encode_decode_n.
    rewrite slice_length by exact Hj. exact Hij. }
  destruct H as [Hm [(H28 & Hv & ->) | (H36 & Hv & ->)]];
    cbn [color_payload alpha_payload] in Hc, Ha; unfold layout, len;
    cbn [version width height color_payload alpha_payload Z.eqb Pos.eqb].
  - exists (skipn (28 + color_size_field f) f).
    rewrite <- Hc.
    rewrite (Hfield 8%nat 12%nat 0),
      (Hfield 12%nat 16%nat (be_decode (slice 12 16 f))),
      (Hfield 16%nat 20%nat (be_decode (slice 16 20 f))),
      (Hsize 20%nat 28%nat (color_size_field f))
      by (reflexivity || lia || exact Hv).
    rewrite <- !app_assoc. cbn [app].
    rewrite <- (skipn_slice 28) by lia. rewrite <- Hm.
    apply split_header.
  - specialize (Ha _ eq_refl).
    exists (skipn (36 + color_size_field f + alpha_size_field f) f).
    rewrite <- Hc, <- Ha.
    rewrite (Hfield 8%nat 12%nat 1),
      (Hfield 12%nat 16%nat (be_decode (slice 12 16 f))),
      (Hfield 16%nat 20%nat (be_decode (slice 16 20 f))),
      (Hsize 20%nat 28%nat (color_size_field f)),
      (Hsize (28 + color_size_field f)%nat (36 + color_size_field f)%nat
             (alpha_size_field f))
      by (reflexivity || lia || exact Hv).
    rewrite <- !app_assoc.
    rewrite <- (skipn_slice (36 + color_size_field f)) by lia.
    rewrite <- (skipn_slice (28 + color_size_field f)) by lia.
    rewrite <- (skipn_slice 28) by lia. rewrite <- Hm.
    apply split_header.
Qed.

Lemma parse_input_is_layout_witness :
  exists t, stream_v1 ++ [xff; xfe] =
            layout (mkMilimgHeader 1 3 1 [x01; x02; x03; x04; x05]
                                   (Some [x0a; x0b; x0c])) ++ t.
Proof.
  apply (parse_input_is_layout (stream_v1 ++ [xff; xfe])).
  - vm_compute. reflexivity.
  - vm_compute. reflexivity.
  - intros a [= <-]. vm_compute. reflexivity.
Defined.

(** * Further properties of the writer *)

(** On a coupled record the assembly raises nothing but [struct.error]. *)
Lemma assemble_coupled_error (v w h : Z) (c : bytes) (a : option bytes)
    (f0 : bytes) (e : exn) :
  coupled (mkMilimgHeader v w h c a) ->
  fst (assemble_milimg v w h c a f0) = inl e -> e = struct_error.
Proof.
  unfold coupled. cbn [version alpha_payload].
  unfold assemble_milimg, struct_pack_I, struct_pack_Q, py_len.
  unfold bind, lift, fwrite, ret, raise.
  intros Hc.
  destruct (fits 32 v); [|intros [= <-]; reflexivity].
  destruct (fits 32 w); [|intros [= <-]; reflexivity].
  destruct (fits 32 h); [|intros [= <-]; reflexivity].
  destruct (fits 64 _); [|intros [= <-]; reflexivity].
  destruct Hc as [[-> ->] | [-> [a' ->]]]; cbn [Z.eqb Pos.eqb fst].
  - intros [=].
  - destruct (fits 64 _); cbn [fst]; [intros [=] | intros [= <-]; reflexivity].
Qed.

Lemma written_inr (m : io unit) (s : bytes) :
  written m = inr s <-> m [] = (inr tt, s).
Proof.
  unfold written. destruct (m []) as [[e|[]] out]; split;
    intros H; inversion H; reflexivity.
Qed.

Section EncoderOutcome.

Variable Image : Type.
Variable img_mode : Image -> string.
Variable info_contains : Image -> string -> bool.
Variable getchannel : Image -> string -> Image.
Variable getdata : Image -> list Z.
Variable convert : Image -> string -> Image.
Variable size : Image -> Z * Z.
Variable encode_to_av1 : Image -> Z -> bool -> bytes.

(** What the encoder hands to the assembly, spelled out. *)
Lemma encode_milimg_unfold (opened : Image) (quality : Z) :
  encode_milimg Image img_mode info_contains getchannel getdata convert size
    encode_to_av1 opened quality
  = assemble_milimg
      (if has_transparency Image img_mode info_contains getchannel getdata
            (convert opened "RGBA") then 1 else 0)
      (fst (size (convert opened "RGBA")))
      (snd (size (convert opened "RGBA")))
      (encode_to_av1 (convert (convert opened "RGBA") "RGB") quality false)
      (if has_transparency Image img_mode info_contains getchannel getdata
            (convert opened "RGBA")
       then Some (encode_to_av1 (getchannel (convert opened "RGBA") "A")
                    quality true)
       else None).
Proof.
  unfold encode_milimg.
  destruct (size (convert opened "RGBA")) as [w h].
  destruct (has_transparency _ _ _ _ _ _); reflexivity.
Qed.

(** X7. The [len(alpha_payload)] of the write block is never applied to
    [None]: whatever the image and whatever the collaborators return, the
    write block of the encoder does not raise the TypeError of
    [len(None)], because the alpha payload is there whenever the version
    is 1. *)
Theorem encode_milimg_never_type_error
    (opened : Image) (quality : Z) (f0 : bytes) :
  fst (encode_milimg Image img_mode info_contains getchannel getdata
         convert size encode_to_av1 opened quality f0) <> inl TypeError.
Proof.
  rewrite encode_milimg_unfold.
  set (img := convert opened "RGBA").
  set (t := has_transparency _ _ _ _ _ img).
  set (c := encode_to_av1 (convert img "RGB") quality false).
  set (a := encode_to_av1 (getchannel img "A") quality true).
  assert (Hc : coupled (mkMilimgHeader (if t then 1 else 0) (fst (size img))
                          (snd (size img)) c (if t then Some a else None))).
  { unfold coupled. cbn [version alpha_payload].
    destruct t; [right; split; [reflexivity | exists a; reflexivity]
                | left; split; reflexivity]. }
  intros He.
  pose proof (assemble_coupled_error _ _ _ _ _ _ _ Hc He) as E.
  discriminate E.
Qed.

(** What the encoder wrote, when it succeeded, is the layout of the record
    made of what it was given. *)
Lemma encode_milimg_written_layout (opened : Image) (quality : Z) (s : bytes) :
  written (encode_milimg Image img_mode info_contains getchannel getdata
             convert size encode_to_av1 opened quality) = inr s ->
  valid_record
    (mkMilimgHeader
       (if has_transparency Image img_mode info_contains getchannel
             getdata (convert opened "RGBA") then 1 else 0)
       (fst (size (convert opened "RGBA")))
       (snd (size (convert opened "RGBA")))
       (encode_to_av1 (convert (convert opened "RGBA") "RGB") quality false)
       (if has_transparency Image img_mode info_contains getchannel
             getdata (convert opened "RGBA")
        then Some (encode_to_av1 (getchannel (convert opened "RGBA") "A")
                     quality true)
        else None)) /\
  s = layout
        (mkMilimgHeader
           (if has_transparency Image img_mode info_contains getchannel
                 getdata (convert opened "RGBA") then 1 else 0)
           (fst (size (convert opened "RGBA")))
           (snd (size (convert opened "RGBA")))
           (encode_to_av1 (convert (convert opened "RGBA") "RGB") quality
              false)
           (if has_transparency Image img_mode info_contains getchannel
                 getdata (convert opened "RGBA")
            then Some (encode_to_av1 (getchannel (convert opened "RGBA") "A")
                         quality true)
            else None)).
Proof.
  rewrite encode_milimg_unfold.
  set (img := convert opened "RGBA").
  set (t := has_transparency _ _ _ _ _ img).
  set (c := encode_to_av1 (convert img "RGB") quality false).
  set (a := encode_to_av1 (getchannel img "A") quality true).
  intros Hs. apply written_inr in Hs.
  pose proof (assemble_success (if t then 1 else 0) (fst (size img))
                (snd (size img)) c (if t then Some a else None) []) as Hfit.
  rewrite Hs in Hfit. destruct (Hfit eq_refl) as (_ & Hw & Hh & Hlen & Ha).
  assert (Hr : valid_record
                 (mkMilimgHeader (if t then 1 else 0) (fst (size img))
                    (snd (size img)) c (if t then Some a else None))).
  { unfold valid_record, coupled.
    cbn [version width height color_payload alpha_payload].
    split; [destruct t; [right; split; [reflexivity | exists a; reflexivity]
                        | left; split; reflexivity]|].
    repeat (split; [assumption|]). intros a' E.
    destruct t; [|discriminate E]. injection E as <-.
    destruct (Ha eq_refl) as (a' & [= <-] & Ha'). exact Ha'. }
  split; [exact Hr|].
  pose proof (serialize_layout _ Hr) as Hl.
  unfold serialize in Hl. apply written_inr in Hl.
  cbn [version width height color_payload alpha_payload] in Hl.
  rewrite Hs in Hl. injection Hl as ->. reflexivity.
Qed.

(** X8. Reading back what the encoder wrote gives exactly what it was
    given: version 1 when the image has transparency and 0 otherwise, the
    size of the image, the color payload of the AV1 encoder and, with
    transparency, its alpha payload.  The file has 28 + N bytes, or
    36 + N + M with transparency. *)
Theorem encode_milimg_then_parse (opened : Image) (quality : Z) (s : bytes) :
  written (encode_milimg Image img_mode info_contains getchannel getdata
             convert size encode_to_av1 opened quality) = inr s ->
  parse_milimg_container s
  = inr (mkMilimgHeader
           (if has_transparency Image img_mode info_contains getchannel
                 getdata (convert opened "RGBA") then 1 else 0)
           (fst (size (convert opened "RGBA")))
           (snd (size (convert opened "RGBA")))
           (encode_to_av1 (convert (convert opened "RGBA") "RGB") quality
              false)
           (if has_transparency Image img_mode info_contains getchannel
                 getdata (convert opened "RGBA")
            then Some (encode_to_av1 (getchannel (convert opened "RGBA") "A")
                         quality true)
            else None)) /\
  len s
  = 28 + len (encode_to_av1 (convert (convert opened "RGBA") "RGB") quality
                false)
    + (if has_transparency Image img_mode info_contains getchannel getdata
            (convert opened "RGBA")
       then 8 + len (encode_to_av1 (getchannel (convert opened "RGBA") "A")
                       quality true)
       else 0).
Proof.
  intros Hs.
  destruct (encode_milimg_written_layout opened quality s Hs) as [Hr ->].
  split.
  - rewrite <- (app_nil_r (layout _)). apply parse_layout_app, Hr.
  - rewrite layout_length.
    cbn [version color_payload alpha_payload].
    destruct (has_transparency _ _ _ _ _ _); reflexivity.
Qed.

(** X9. When converting to RGBA yields an image of mode RGBA, the version
    the encoder writes is 1 exactly when some value of the alpha channel is
    below 255, and 0 exactly when none is; this holds for the version field
    of the file whether or not the rest of the write succeeds. *)
Theorem encode_milimg_version_by_alpha (opened : Image) (quality : Z) :
  img_mode (convert opened "RGBA") = "RGBA"%string ->
  (version_field
     (snd (encode_milimg Image img_mode info_contains getchannel getdata
             convert size encode_to_av1 opened quality [])) = 1 <->
   exists p,
     In p (getdata (getchannel (convert opened "RGBA") "A")) /\ p < 255) /\
  (version_field
     (snd (encode_milimg Image img_mode info_contains getchannel getdata
             convert size encode_to_av1 opened quality [])) = 0 <->
   forall p,
     In p (getdata (getchannel (convert opened "RGBA") "A")) -> 255 <= p).
Proof.
  intros Hmode. rewrite encode_milimg_unfold.
  set (img := convert opened "RGBA") in *.
  assert (Ht : has_transparency Image img_mode info_contains getchannel
                 getdata img
               = existsb (fun p => p <? 255) (getdata (getchannel img "A"))).
  { unfold has_transparency. rewrite Hmode. reflexivity. }
  rewrite Ht. clear Ht.
  set (data := getdata (getchannel img "A")).
  set (t := existsb (fun p => p <? 255) data).
  assert (Hfield : version_field
                     (snd (assemble_milimg (if t then 1 else 0)
                             (fst (size img)) (snd (size img))
                             (encode_to_av1 (convert img "RGB") quality false)
                             (if t
                              then Some (encode_to_av1 (getchannel img "A")
                                           quality true)
                              else None) []))
                   = (if t then 1 else 0)).
  { destruct (assemble_emits_version (if t then 1 else 0) (fst (size img))
                (snd (size img))
                (encode_to_av1 (convert img "RGB") quality false)
                (if t then Some (encode_to_av1 (getchannel img "A")
                                   quality true) else None))
      as [tail ->]; [destruct t; lia|].
    unfold version_field, slice.
    rewrite (skipn_exact_n 8 magic) by reflexivity.
    rewrite (firstn_exact_n (12 - 8)) by apply be_encode_length.
    apply decode_field_4. destruct t; lia. }
  rewrite Hfield.
  assert (Hex : t = true <-> exists p, In p data /\ p < 255).
  { unfold t. rewrite existsb_exists. split; intros [p [Hin Hp]]; exists p;
      (split; [exact Hin|]); [apply Z.ltb_lt | apply Z.ltb_lt]; exact Hp. }
  split.
  - rewrite <- Hex. destruct t; split; congruence.
  - split.
    + intros Hv p Hin. destruct t eqn:Et; [discriminate Hv|].
      destruct (Z.lt_ge_cases p 255) as [Hlt|Hge]; [|exact Hge].
      assert (Htrue : false = true) by (apply Hex; exists p; auto).
      discriminate Htrue.
    + intros Hall. destruct t; [|reflexivity].
      destruct (proj1 Hex eq_refl) as [p [Hin Hp]].
      specialize (Hall p Hin). lia.
Qed.

End EncoderOutcome.

Lemma encode_milimg_never_type_error_witness :
  fst (encode_milimg unit (fun _ => "RGBA"%string) (fun _ _ => false)
         (fun _ _ => tt) (fun _ => [255; 128]) (fun _ _ => tt)
         (fun _ => (4, 2))
         (fun _ _ is_alpha => if is_alpha then [x0a] else [x41; x42])
         tt 28 []) <> inl TypeError.
Proof.
  apply (encode_milimg_never_type_error unit (fun _ => "RGBA"%string)
           (fun _ _ => false) (fun _ _ => tt) (fun _ => [255; 128])
           (fun _ _ => tt) (fun _ => (4, 2))
           (fun _ _ is_alpha => if is_alpha then [x0a] else [x41; x42])
           tt 28 []).
Defined.

Lemma encode_milimg_then_parse_witness :
  parse_milimg_container
    (layout (mkMilimgHeader 1 4 2 [x41; x42] (Some [x0a])))
  = inr (mkMilimgHeader 1 4 2 [x41; x42] (Some [x0a])) /\
  len (layout (mkMilimgHeader 1 4 2 [x41; x42] (Some [x0a])))
  = 28 + 2 + (8 + 1).
Proof.
  apply (encode_milimg_then_parse unit (fun _ => "RGBA"%string)
           (fun _ _ => false) (fun _ _ => tt) (fun _ => [255; 128])
           (fun _ _ => tt) (fun _ => (4, 2))
           (fun _ _ is_alpha => if is_alpha then [x0a] else [x41; x42])
           tt 28 (layout (mkMilimgHeader 1 4 2 [x41; x42] (Some [x0a])))).
  vm_compute. reflexivity.
Defined.

Lemma encode_milimg_version_by_alpha_witness :
  version_field
    (snd (encode_milimg unit (fun _ => "RGBA"%string) (fun _ _ => false)
            (fun _ _ => tt) (fun _ => [255; 255]) (fun _ _ => tt)
            (fun _ => (4, 2)) (fun _ _ _ => [x41; x42]) tt 28 [])) = 0.
Proof.
  apply (proj2 (proj2 (encode_milimg_version_by_alpha unit
                         (fun _ => "RGBA"%string) (fun _ _ => false)
                         (fun _ _ => tt) (fun _ => [255; 255])
                         (fun _ _ => tt) (fun _ => (4, 2))
                         (fun _ _ _ => [x41; x42]) tt 28 eq_refl))).
  intros p [<- | [<- | []]]; lia.
Defined.


(** * Properties of the decoder *)




Section DecoderProperties.

Variable Frame : Type.
Variable Image : Type.
Variable mktemp : tmpfs -> string.
Variable cap_isOpened : option bytes -> bool.
Variable cap_read : option bytes -> bool * Frame.
Variable cvtColor_BGR2RGB : Frame -> Frame.
Variable fromarray : Frame -> Image.
Variable channel_0 : Frame -> Frame.
Variable fromarray_L : Frame -> Image.
Variable convert : Image -> string -> Image.
Variable putalpha : Image -> Image -> Image.




(** X13. The decoder returns no image exactly when the container parses
    and the color payload gives no frame; in particular for every file
    with an empty color payload.  A failure on the alpha payload never
    makes the result empty. *)
Theorem decode_milimg_no_image_iff (file : bytes) (fs : tmpfs) :
  (fst (decode_milimg Frame Image mktemp cap_isOpened cap_read
          cvtColor_BGR2RGB fromarray channel_0 fromarray_L convert putalpha
          file fs) = inr None <->
   exists header,
     parse_milimg_container file = inr header /\
     fst (decode_av1_frame_with_opencv Frame mktemp cap_isOpened cap_read
            (color_payload header) fs) = None) /\
  (forall header,
     parse_milimg_container file = inr header ->
     color_payload header = [] ->
     fst (decode_milimg Frame Image mktemp cap_isOpened cap_read
            cvtColor_BGR2RGB fromarray channel_0 fromarray_L convert putalpha
            file fs) = inr None).
Proof.
  unfold decode_milimg. split.
  - destruct (parse_milimg_container file) as [e|header].
    + split; [discriminate | intros [h [[=] _]]].
    + destruct (decode_av1_frame_with_opencv _ _ _ _ (color_payload header)
                  fs) as [[bgr|] fs1] eqn:Ec.
      * split.
        -- destruct (alpha_payload header) as [alpha|]; [|discriminate].
           destruct ((version header =? 1) && truthy (Some alpha));
             [|discriminate].
           destruct (decode_av1_frame_with_opencv _ _ _ _ alpha fs1)
             as [[abgr|] fs2]; discriminate.
        -- intros [h [[= <-] Hn]]. rewrite Ec in Hn. discriminate Hn.
      * split; [intros _; exists header; rewrite Ec; split; reflexivity
               | reflexivity].
  - intros header -> Hc. rewrite Hc. reflexivity.
Qed.

(** X14. The decoder never looks at the width and height of the header:
    two files whose records agree on version and payloads decode to the
    same result. *)
Theorem decode_milimg_ignores_dimensions (file1 file2 : bytes)
    (header1 header2 : MilimgHeader) (fs : tmpfs) :
  parse_milimg_container file1 = inr header1 ->
  parse_milimg_container file2 = inr header2 ->
  version header1 = version header2 ->
  color_payload header1 = color_payload header2 ->
  alpha_payload header1 = alpha_payload header2 ->
  decode_milimg Frame Image mktemp cap_isOpened cap_read cvtColor_BGR2RGB
    fromarray channel_0 fromarray_L convert putalpha file1 fs
  = decode_milimg Frame Image mktemp cap_isOpened cap_read cvtColor_BGR2RGB
      fromarray channel_0 fromarray_L convert putalpha file2 fs.
Proof.
  intros H1 H2 Hv Hc Ha. unfold decode_milimg.
  rewrite H1, H2, Hv, Hc, Ha. reflexivity.
Qed.

(** X15. An alpha payload that is empty, or that gives no frame, is as good
    as none: the result is the color image alone, the same as for a file
    with the same color payload and no alpha payload. *)
Theorem decode_milimg_alpha_fallback (file1 file0 : bytes)
    (header1 header0 : MilimgHeader) (fs : tmpfs) :
  parse_milimg_container file1 = inr header1 ->
  parse_milimg_container file0 = inr header0 ->
  color_payload header1 = color_payload header0 ->
  alpha_payload header0 = None ->
  (forall alpha fs',
     alpha_payload header1 = Some alpha ->
     fst (decode_av1_frame_with_opencv Frame mktemp cap_isOpened cap_read
            alpha fs') = None) ->
  fst (decode_milimg Frame Image mktemp cap_isOpened cap_read
         cvtColor_BGR2RGB fromarray channel_0 fromarray_L convert putalpha
         file1 fs)
  = fst (decode_milimg Frame Image mktemp cap_isOpened cap_read
           cvtColor_BGR2RGB fromarray channel_0 fromarray_L convert putalpha
           file0 fs).
Proof.
  intros H1 H0 Hc Ha0 Hfail. unfold decode_milimg.
  rewrite H1, H0, Hc, Ha0.
  destruct (decode_av1_frame_with_opencv _ _ _ _ (color_payload header0) fs)
    as [[bgr|] fs1]; [|reflexivity].
  destruct (alpha_payload header1) as [alpha|]; [|reflexivity].
  destruct ((version header1 =? 1) && truthy (Some alpha)); [|reflexivity].
  specialize (Hfail alpha fs1 eq_refl).
  destruct (decode_av1_frame_with_opencv _ _ _ _ alpha fs1)
    as [[abgr|] fs2]; [discriminate Hfail | reflexivity].
Qed.

End DecoderProperties.



Lemma decode_milimg_no_image_iff_witness :
  fst (decode_milimg nat nat (fun _ => "tmp.ivf"%string) (fun _ => true)
         (fun _ => (true, 7%nat)) (fun x => x) (fun x => x) (fun x => x)
         (fun x => x) (fun i _ => i) Nat.add
         (layout (mkMilimgHeader 0 0 0 [] None)) []) = inr None.
Proof.
  apply (proj2 (decode_milimg_no_image_iff nat nat
                  (fun _ => "tmp.ivf"%string) (fun _ => true)
                  (fun _ => (true, 7%nat)) (fun x => x) (fun x => x)
                  (fun x => x) (fun x => x) (fun i _ => i) Nat.add
                  (layout (mkMilimgHeader 0 0 0 [] None)) [])
               (mkMilimgHeader 0 0 0 [] None)).
  - vm_compute. reflexivity.
  - reflexivity.
Defined.

Lemma decode_milimg_ignores_dimensions_witness :
  decode_milimg nat nat (fun _ => "tmp.ivf"%string) (fun _ => true)
    (fun _ => (true, 7%nat)) (fun x => x) (fun x => x) (fun x => x)
    (fun x => x) (fun i _ => i) Nat.add
    (layout (mkMilimgHeader 0 4 2 [x41; x42] None)) []
  = decode_milimg nat nat (fun _ => "tmp.ivf"%string) (fun _ => true)
      (fun _ => (true, 7%nat)) (fun x => x) (fun x => x) (fun x => x)
      (fun x => x) (fun i _ => i) Nat.add
      (layout (mkMilimgHeader 0 640 480 [x41; x42] None)) [].
Proof.
  apply (decode_milimg_ignores_dimensions nat nat
           (fun _ => "tmp.ivf"%string) (fun _ => true)
           (fun _ => (true, 7%nat)) (fun x => x) (fun x => x) (fun x => x)
           (fun x => x) (fun i _ => i) Nat.add
           (layout (mkMilimgHeader 0 4 2 [x41; x42] None))
           (layout (mkMilimgHeader 0 640 480 [x41; x42] None))
           (mkMilimgHeader 0 4 2 [x41; x42] None)
           (mkMilimgHeader 0 640 480 [x41; x42] None));
    vm_compute; reflexivity.
Defined.

Lemma decode_milimg_alpha_fallback_witness :
  fst (decode_milimg nat nat (fun _ => "tmp.ivf"%string) (fun _ => true)
         (fun _ => (true, 7%nat)) (fun x => x) (fun x => x) (fun x => x)
         (fun x => x) (fun i _ => i) Nat.add
         (layout (mkMilimgHeader 1 4 2 [x41; x42] (Some []))) [])
  = fst (decode_milimg nat nat (fun _ => "tmp.ivf"%string) (fun _ => true)
           (fun _ => (true, 7%nat)) (fun x => x) (fun x => x) (fun x => x)
           (fun x => x) (fun i _ => i) Nat.add
           (layout (mkMilimgHeader 0 4 2 [x41; x42] None)) []).
Proof.
  apply (decode_milimg_alpha_fallback nat nat
           (fun _ => "tmp.ivf"%string) (fun _ => true)
           (fun _ => (true, 7%nat)) (fun x => x) (fun x => x) (fun x => x)
           (fun x => x) (fun i _ => i) Nat.add
           (layout (mkMilimgHeader 1 4 2 [x41; x42] (Some [])))
           (layout (mkMilimgHeader 0 4 2 [x41; x42] None))
           (mkMilimgHeader 1 4 2 [x41; x42] (Some []))
           (mkMilimgHeader 0 4 2 [x41; x42] None)).
  - vm_compute. reflexivity.
  - vm_compute. reflexivity.
  - reflexivity.
  - reflexivity.
  - intros alpha fs' [= <-]. reflexivity.
Defined.

(** * The encoder and the decoder together *)

Section Pipeline.

Variable SourceImage : Type.
Variable img_mode : SourceImage -> string.
Variable info_contains : SourceImage -> string -> bool.
Variable getchannel : SourceImage -> string -> SourceImage.
Variable getdata : SourceImage -> list Z.
Variable convert_source : SourceImage -> string -> SourceImage.
Variable size : SourceImage -> Z * Z.
Variable image_width : SourceImage -> Z.
Variable image_height : SourceImage -> Z.
Variable av_encode : StreamConfig -> SourceImage -> bytes.

Variable Frame : Type.
Variable Image : Type.
Variable mktemp : tmpfs -> string.
Variable cap_isOpened : option bytes -> bool.
Variable cap_read : option bytes -> bool * Frame.
Variable cvtColor_BGR2RGB : Frame -> Frame.
Variable fromarray : Frame -> Image.
Variable channel_0 : Frame -> Frame.
Variable fromarray_L : Frame -> Image.
Variable convert : Image -> string -> Image.
Variable putalpha : Image -> Image -> Image.

(** X16. The AV1 encoder drops the first 44 bytes of the IVF stream without
    looking at them.  When the stream of the color image, encoded as
    yuv420p with colorspace bt709, full range and the given crf, has 44
    bytes or fewer, and the encoder has written its file, that file parses
    to a record with an empty color payload, and the decoder returns no
    image for it. *)
Theorem encode_short_ivf_decodes_to_nothing
    (opened : SourceImage) (quality : Z) (s : bytes) (fs : tmpfs) :
  (length
     (av_encode
        (mkStreamConfig "libaom-av1" 30
           (image_width (convert_source (convert_source opened "RGBA") "RGB"))
           (image_height (convert_source (convert_source opened "RGBA") "RGB"))
           "yuv420p"
           [("colorspace", "bt709"); ("color_range", "pc");
            ("crf", py_str quality)]%string)
        (convert_source (convert_source opened "RGBA") "RGB")) <= 44)%nat ->
  written (encode_milimg SourceImage img_mode info_contains getchannel
             getdata convert_source size
             (encode_to_av1 SourceImage image_width image_height av_encode)
             opened quality) = inr s ->
  (exists header,
     parse_milimg_container s = inr header /\ color_payload header = []) /\
  fst (decode_milimg Frame Image mktemp cap_isOpened cap_read
         cvtColor_BGR2RGB fromarray channel_0 fromarray_L convert putalpha
         s fs) = inr None.
Proof.
  intros Hshort Hs.
  destruct (encode_milimg_written_layout _ _ _ _ _ _ _ _ _ _ _ Hs)
    as [Hr ->].
  match type of Hr with
  | valid_record ?R => set (header := R) in *
  end.
  assert (Hp : parse_milimg_container (layout header) = inr header).
  { rewrite <- (app_nil_r (layout header)). apply parse_layout_app, Hr. }
  assert (Hc : color_payload header = []).
  { unfold header. cbn [color_payload]. unfold encode_to_av1.
    cbn [app]. apply skipn_all2. exact Hshort. }
  split; [exists header; split; assumption|].
  unfold decode_milimg. rewrite Hp, Hc. reflexivity.
Qed.

End Pipeline.

Lemma encode_short_ivf_decodes_to_nothing_witness :
  fst (decode_milimg nat nat (fun _ => "tmp.ivf"%string) (fun _ => true)
         (fun _ => (true, 7%nat)) (fun x => x) (fun x => x) (fun x => x)
         (fun x => x) (fun i _ => i) Nat.add
         (layout (mkMilimgHeader 0 4 2 [] None)) []) = inr None.
Proof.
  apply (encode_short_ivf_decodes_to_nothing unit (fun _ => "RGBA"%string)
           (fun _ _ => false) (fun _ _ => tt) (fun _ => [255])
           (fun _ _ => tt) (fun _ => (4, 2)) (fun _ => 4) (fun _ => 2)
           (fun _ _ => repeat x00 32)
           nat nat (fun _ => "tmp.ivf"%string) (fun _ => true)
           (fun _ => (true, 7%nat)) (fun x => x) (fun x => x) (fun x => x)
           (fun x => x) (fun i _ => i) Nat.add
           tt 28 (layout (mkMilimgHeader 0 4 2 [] None)) []).
  - vm_compute. lia.
  - vm_compute. reflexivity.
Defined.
